(** * llm-agent: streaming tool-dispatch loop

    Shallow embedding of [tool_processor.py], [prompt_manager.py],
    [agent.py], [tools.py] and the constants of [prompts.py], followed by
    the properties of the specification stated against that embedding.

    Python [str] values are lists of characters, and a character is a
    code point.  The code points U+0000..U+00FF are written with Rocq's
    [ascii]; the others by their distance from U+0100.  White space is
    Python's, on every code point.  Case mapping and the class [\w] are
    Python's on U+0000..U+00FF and on U+0130; beyond, they are read from
    the character database of the interpreter, a collaborator of the
    program like the JSON decoder. *)

From Stdlib Require Import Ascii String ZArith NArith Lia Sorted.
From stdpp Require Import gmap strings list pretty.

(** ** Characters and strings *)

Inductive char :=
| Latin (a : ascii)     (* the code point [N_of_ascii a], U+0000..U+00FF *)
| Beyond (n : N).       (* the code point [256 + n] *)

#[global] Instance char_eq_dec : EqDecision char.
Proof. solve_decision. Defined.

#[global] Instance char_countable : Countable char.
Proof.
  refine (inj_countable'
            (fun c => match c with Latin a => inl a | Beyond n => inr n end)
            (fun x => match x with inl a => Latin a | inr n => Beyond n end)
            _).
  intros [a | n]; reflexivity.
Defined.

Abbreviation str := (list char).

(** A literal of the sources, all of them ASCII. *)
Fixpoint str_of_string (s : string) : list char :=
  match s with
  | EmptyString => []
  | String a s' => Latin a :: str_of_string s'
  end.
Coercion str_of_string : string >-> list.

Open Scope Z_scope.

(** ** Outcomes of Python computations and the external collaborators *)

(** A Python computation returns a value or raises an exception; of an
    exception the program only ever reads [str(e)]. *)
Inductive pyres (A : Type) : Type :=
| Ok (a : A)
| Raise (msg : str).
Arguments Ok {A} a.
Arguments Raise {A} msg.

(** Outcome of [json.loads]. *)
Inductive loads_result (J : Type) : Type :=
| Loaded (j : J)
| JSONDecodeError (msg : str)
| LoadsFailure (msg : str).   (* any other exception, e.g. RecursionError *)
Arguments Loaded {J} j.
Arguments JSONDecodeError {J} msg.
Arguments LoadsFailure {J} msg.

Inductive Role := system | user | assistant.

#[global] Instance Role_eq_dec : EqDecision Role.
Proof. solve_decision. Defined.

(** Which operation of the prompt manager created an entry.  A ghost
    field: the Python dictionaries do not carry it and no function of the
    program reads it. *)
Inductive Origin :=
| by_init | by_instruction | by_assistant | by_tool_output | by_feedback.

#[global] Instance Origin_eq_dec : EqDecision Origin.
Proof. solve_decision. Defined.

(** A message dictionary: ['role'], ['content'] and, on assistant entries,
    ['completed']. *)
Record Message := {
  role : Role;
  content : str;
  completed : option bool;
  origin : Origin
}.

Inductive Runner := main_runner | feedback_runner.

(** What a generator of [ModelRunner.generate_tokens] yields: the tokens,
    then either exhaustion or the exception the transport raised. *)
Record Stream := {
  tokens : list str;
  failure : option str
}.

(** The collaborators outside the repository: the JSON decoder, the chat
    transport behind the two model runners, acting on the state of the
    world ([World]: the operating system and the model endpoint), and the
    character database of the interpreter.
    [generate_tokens r msgs] is [ModelRunner.generate_tokens] of
    [model_runner.py] for the runner [r]; the copy of the messages the
    runner keeps in [self.messages] is read by nothing in the agent and is
    left out.  A generator is consumed lazily: what it would have yielded
    after the consumer stopped, a failure included, is never observed.
    [isalnum_beyond n] is [chr(256 + n).isalnum()].  [lower_beyond before n
    after] is what [str.lower] puts for the character [chr(256 + n)] of a
    text in which [before] precedes it and [after] follows it (the
    lower-casing of a capital sigma depends on its neighbours); it is
    consulted for every code point from U+0100 on but U+0130. *)
Class External := {
  World : Type;
  Json : Type;
  json_loads : str -> loads_result Json;
  generate_tokens : Runner -> list Message -> World -> Stream * World;
  isalnum_beyond : N -> bool;
  lower_beyond : str -> N -> str -> str
}.

(** ** Python string primitives *)

Module PyStr.
Section Primitives.
Context `{External}.

(** [ord(c)] *)
Definition code (c : char) : N :=
  match c with
  | Latin a => N_of_ascii a
  | Beyond n => (256 + n)%N
  end.

Definition between (lo hi : N) (c : char) : bool :=
  ((lo <=? code c) && (code c <=? hi))%N.

(** The capital letters of U+0000..U+00FF: A to Z, and U+00C0 to U+00DE
    but for the multiplication sign U+00D7. *)
Definition is_upper (a : ascii) : bool :=
  let n := N_of_ascii a in
  ((65 <=? n) && (n <=? 90)
   || (192 <=? n) && (n <=? 222) && negb (n =? 215))%N.

(** The small letter of a capital letter of U+0000..U+00FF stands 32 code
    points after it. *)
Definition lower_latin (a : ascii) : ascii :=
  if is_upper a then ascii_of_N (N_of_ascii a + 32) else a.

(** What [str.lower] puts for the character [c], standing between [before]
    and [after]: one character for a code point of U+0000..U+00FF, the two
    characters U+0069 U+0307 for U+0130, the capital I with a dot above. *)
Definition lower_char (before : str) (c : char) (after : str) : str :=
  match c with
  | Latin a => [Latin (lower_latin a)]
  | Beyond n =>
      if (n =? 48)%N then [Latin "i"; Beyond 519]
      else lower_beyond before n after
  end.

Fixpoint lower_from (before s : str) : str :=
  match s with
  | [] => []
  | c :: rest => lower_char before c rest ++ lower_from (before ++ [c]) rest
  end.

(** [s.lower()] *)
Definition lower (s : str) : str := lower_from [] s.

(** [str.isspace] on one character, the white space [str.strip] removes:
    U+0009..U+000D, U+001C..U+0020, U+0085, U+00A0, U+1680,
    U+2000..U+200A, U+2028, U+2029, U+202F, U+205F and U+3000. *)
Definition is_space (c : char) : bool :=
  (between 9 13 c || between 28 32 c
   || (code c =? 133) || (code c =? 160) || (code c =? 5760)
   || between 8192 8202 c || (code c =? 8232) || (code c =? 8233)
   || (code c =? 8239) || (code c =? 8287) || (code c =? 12288))%N.

(** [str.isalnum] on U+0000..U+00FF: the digits and letters of ASCII, and
    of the upper half U+00AA, U+00B2, U+00B3, U+00B5, U+00B9, U+00BA,
    U+00BC..U+00BE, U+00C0..U+00D6, U+00D8..U+00F6 and U+00F8..U+00FF. *)
Definition isalnum_latin (a : ascii) : bool :=
  let n := N_of_ascii a in
  ((48 <=? n) && (n <=? 57) || (65 <=? n) && (n <=? 90)
   || (97 <=? n) && (n <=? 122)
   || (n =? 170) || (n =? 178) || (n =? 179) || (n =? 181)
   || (n =? 185) || (n =? 186) || (188 <=? n) && (n <=? 190)
   || (192 <=? n) && (n <=? 214) || (216 <=? n) && (n <=? 246)
   || (248 <=? n))%N.

(** the class [\w] of the [re] module for a [str] pattern: alphanumeric,
    or the underscore *)
Definition is_word (c : char) : bool :=
  match c with
  | Latin a => isalnum_latin a || (N_of_ascii a =? 95)%N
  | Beyond n => isalnum_beyond n
  end.

Fixpoint lstrip (s : str) : str :=
  match s with
  | c :: s' => if is_space c then lstrip s' else s
  | [] => []
  end.

Definition rstrip (s : str) : str := reverse (lstrip (reverse s)).

(** [s.strip()] *)
Definition strip (s : str) : str := rstrip (lstrip s).

(** [s.startswith(p)] *)
Fixpoint startswith (p s : str) : bool :=
  match p, s with
  | [], _ => true
  | a :: p', b :: s' => bool_decide (a = b) && startswith p' s'
  | _ :: _, [] => false
  end.

(** [sub in s] *)
Fixpoint contains (sub s : str) : bool :=
  startswith sub s ||
  match s with
  | [] => false
  | _ :: s' => contains sub s'
  end.

(** [s.find(sub)]: the lowest index at which [sub] occurs, or -1 *)
Fixpoint find (sub s : str) : Z :=
  if startswith sub s then 0
  else match s with
       | [] => -1
       | _ :: s' => let i := find sub s' in if i <? 0 then -1 else i + 1
       end.

(** [len(s)] *)
Definition len (s : str) : Z := Z.of_nat (length s).

(** [s[k:]], with Python's treatment of a negative start *)
Definition slice_from (k : Z) (s : str) : str :=
  if k <? 0 then drop (Z.to_nat (Z.max 0 (len s + k))) s
  else drop (Z.to_nat k) s.

(** [s[:n]] for a non-negative literal [n] *)
Definition slice_to (n : nat) (s : str) : str := take n s.

(** [x or d] on strings: the empty string is falsy *)
Definition or_else (x d : str) : str :=
  match x with [] => d | _ => x end.

(** [str(n)] for a non-negative integer *)
Definition of_nat (n : nat) : str := (pretty n : string).

(** the line feed, written [\n] in the Python sources *)
Definition LF : str := [Latin "010"].

End Primitives.
End PyStr.

(** ** The regular expression [\[(\w+)\]\|\|\|(.*?)\|\|\|] under [re.DOTALL] *)

Module Re.
Section Pattern.
Context `{External}.
Import PyStr.

Record Match := {
  m_start : nat;      (* match.start() *)
  m_end : nat;        (* match.end() *)
  group1 : str;       (* match.group(1) *)
  group2 : str        (* match.group(2) *)
}.

(** [\w+], greedy.  Giving back characters never helps: the next atom
    is [\]] and no word character is a bracket. *)
Fixpoint span_word (s : str) : str * str :=
  match s with
  | c :: s' =>
      if is_word c then let '(w, r) := span_word s' in (c :: w, r)
      else ([], s)
  | [] => ([], [])
  end.

(** [(.*?)\|\|\|]: the shortest text followed by three bars; with
    DOTALL the dot matches every character. *)
Fixpoint lazy_until_bars (s : str) : option str :=
  if startswith "|||" s then Some []
  else match s with
       | c :: s' => cons c <$> lazy_until_bars s'
       | [] => None
       end.

(** The pattern anchored at the head of [s]: the two groups and the
    length of the matched text. *)
Definition match_here (s : str) : option (str * str * nat) :=
  match s with
  | c :: s1 =>
      if bool_decide (c = Latin "[") then
        let '(name, s2) := span_word s1 in
        match name with
        | [] => None
        | _ :: _ =>
            if startswith "]|||" s2 then
              content ← lazy_until_bars (drop 4 s2);
              Some (name, content,
                    (1 + length name + 4 + length content + 3)%nat)
            else None
        end
      else None
  | [] => None
  end.

(** [re.finditer]: leftmost matches, none overlapping.  [pos] is the
    offset of [s] in the scanned text and [skip] the number of characters
    of [s] still covered by the previous match. *)
Fixpoint finditer_from (pos skip : nat) (s : str) : list Match :=
  match s with
  | [] => []
  | _ :: s' =>
      match skip with
      | S k => finditer_from (S pos) k s'
      | O =>
          match match_here s with
          | Some (g1, g2, n) =>
              {| m_start := pos; m_end := (pos + n)%nat;
                 group1 := g1; group2 := g2 |}
                :: finditer_from (S pos) (Nat.pred n) s'
          | None => finditer_from (S pos) 0 s'
          end
      end
  end.

Definition finditer (s : str) : list Match := finditer_from 0 0 s.

End Pattern.
End Re.

(** ** tool_processor.py *)

Section ToolProcessor.
Context `{External}.
Import PyStr.

(** The argument dictionary splatted into a tool: the decoded JSON value
    or the one-entry dictionary built for plain text. *)
Inductive Kwargs :=
| FromJson (j : Json)
| Keyword (key value : str).

(** A registered callable, applied to the splatted argument dictionary:
    [shell] and [run_python] of [tools.py] are such callables, running
    subprocesses in the world.  A call returns a string or raises (a
    dictionary with the wrong keys, a value that is no dictionary). *)
Definition Tool : Type := Kwargs -> World -> pyres str * World.

Record ToolCall := {
  call_id : str;
  call_name : str;
  call_content : str;
  start_pos : nat;
  end_pos : nat;
  output : option str;
  executed : bool
}.

Record ToolProcessor := {
  available_functions : gmap str Tool;
  executed_tools : gmap str ToolCall;
  (** the records 'Calling function: %s with ID: %s' written to
      [self.logger], oldest first *)
  calls_logged : list (str * str)
}.

(** [ToolProcessor.__init__] *)
Definition new_tool_processor (fns : gmap str Tool) : ToolProcessor :=
  {| available_functions := fns; executed_tools := ∅; calls_logged := [] |}.

(** [f"tool_{start_pos}"] *)
Definition tool_id (start : nat) : str := "tool_" ++ of_nat start.

Definition call_of_match (m : Re.Match) : ToolCall :=
  {| call_id := tool_id (Re.m_start m);
     call_name := Re.group1 m;
     call_content := strip (Re.group2 m);
     start_pos := Re.m_start m;
     end_pos := Re.m_end m;
     output := None;
     executed := false |}.

Definition find_unexecuted_tool_calls (tp : ToolProcessor) (text : str)
  : list ToolCall :=
  omap (fun m =>
          match executed_tools tp !! tool_id (Re.m_start m) with
          | None => Some (call_of_match m)
          | Some _ => None
          end)
       (Re.finditer text).

(** [x[:1000] if len(x) > 1000 else x] *)
Definition truncate (x : str) : str :=
  if 1000 <? len x then slice_to 1000 x else x.

(** [f"<<< {x} >>>"] *)
Definition wrap (x : str) : str := "<<< " ++ x ++ " >>>".

(** The argument dictionary of a call (the inner [try] of
    [execute_tool]). *)
Definition build_args (tc : ToolCall) : pyres Kwargs :=
  match json_loads (call_content tc) with
  | Loaded j => Ok (FromJson j)
  | JSONDecodeError _ =>
      if bool_decide (call_name tc = "shell") then
        Ok (Keyword "command" (call_content tc))
      else if bool_decide (call_name tc = "run_python") then
        Ok (Keyword "code" (call_content tc))
      else Raise "Content must be valid JSON for this tool"
  | LoadsFailure msg => Raise msg
  end.

(** The body of the outer [try] of [execute_tool]. *)
Definition call_function (f : Tool) (tp : ToolProcessor) (tc : ToolCall)
    (w : World) : pyres str * ToolProcessor * World :=
  match build_args tc with
  | Raise e => (Raise e, tp, w)
  | Ok args =>
      let tp1 :=
        {| available_functions := available_functions tp;
           executed_tools := executed_tools tp;
           calls_logged := calls_logged tp ++ [(call_name tc, call_id tc)] |} in
      match f args w with
      | (Ok out, w1) =>
          let output_str :=
            match out with [] => "no output" : str | _ => strip out end in
          (Ok (wrap (truncate output_str)), tp1, w1)
      | (Raise e, w1) => (Raise e, tp1, w1)
      end
  end.

Definition execute_tool (tp : ToolProcessor) (tc : ToolCall) (w : World)
  : pyres str * ToolProcessor * World :=
  match available_functions tp !! call_name tc with
  | Some f =>
      match call_function f tp tc w with
      | (Ok formatted, tp1, w1) => (Ok formatted, tp1, w1)
      | (Raise e, tp1, w1) =>
          let error_message :=
            "Error executing tool " ++ call_name tc ++ ": " ++ e in
          (Ok (wrap (truncate error_message)), tp1, w1)
      end
  | None =>
      let error_message :=
        "Error: Function " ++ call_name tc ++ " not found" in
      (Ok (wrap (truncate error_message)), tp, w)
  end.

Definition process_text (tp : ToolProcessor) (text : str) (w : World)
  : pyres (str * bool * option ToolCall) * ToolProcessor * World :=
  match find_unexecuted_tool_calls tp text with
  | [] => (Ok (text, false, None), tp, w)
  | tool_call :: _ =>
      match execute_tool tp tool_call w with
      | (Raise e, tp1, w1) => (Raise e, tp1, w1)
      | (Ok out, tp1, w1) =>
          let tool_call' :=
            {| call_id := call_id tool_call;
               call_name := call_name tool_call;
               call_content := call_content tool_call;
               start_pos := start_pos tool_call;
               end_pos := end_pos tool_call;
               output := Some out;
               executed := true |} in
          let tp2 :=
            {| available_functions := available_functions tp1;
               executed_tools :=
                 <[call_id tool_call' := tool_call']> (executed_tools tp1);
               calls_logged := calls_logged tp1 |} in
          let updated_text :=
            text ++ LF ++ call_name tool_call' ++ " output:" ++ LF ++ out in
          (Ok (updated_text, true, Some tool_call'), tp2, w1)
      end
  end.

End ToolProcessor.

(** ** prompts.py *)

Definition TASK_COMPLETE_TAG : str := "[task_complete]".
Definition TASK_COMPLETE_DEFAULT_RESULT : str := "Task completed successfully".
Definition MAX_ITERATIONS_MESSAGE : str :=
  PyStr.LF ++ "Maximum iterations reached".
Definition TOOL_OUTPUT_PREFIX : str := " output:" ++ PyStr.LF.
Definition FEEDBACK_AGENT_SYSTEM_PROMPT : str :=
"
You are a feedback agent that analyzes the conversation history and provides constructive feedback and continuation instructions for the main task agent. You speak as a user would speak. 
Review the entire conversation context and:

1. Evaluate what has been accomplished so far
2. Identify any issues or errors that need addressing
3. Provide clear instructions for what the main agent should do next

Format your response as:
[FEEDBACK]
Accomplished: <what's been done>
Issues: <any problems noticed>
Next Steps: <specific instructions for the agent>
[/FEEDBACK]".

(** ** prompt_manager.py

    The prompt manager is its message log [self.messages]; the tool
    catalog and [context_tail_length] play no part in the operations below. *)

Section PromptManager.

Definition is_assistant (m : Message) : bool :=
  bool_decide (role m = assistant).

(** [[m for m in self.messages if m['role'] == 'assistant']] *)
Definition assistant_msgs (msgs : list Message) : list Message :=
  filter (fun m => role m = assistant) msgs.

(** [m.get('completed', False)] *)
Definition get_completed (m : Message) : bool := default false (completed m).

(** [assistant_msgs[-1]] with its index in [self.messages]: the elements
    of the comprehension are the dictionaries of the log themselves, so an
    assignment through [assistant_msgs[-1]] updates the log at that
    index. *)
Fixpoint current_assistant (msgs : list Message) : option (nat * Message) :=
  match msgs with
  | [] => None
  | m :: rest =>
      match current_assistant rest with
      | Some (i, a) => Some (S i, a)
      | None => if is_assistant m then Some (O, m) else None
      end
  end.

(** [PromptManager.__init__]; [system_content] is the text composed from
    the intro, the serialized catalog and the formatting rubric. *)
Definition new_prompt_manager (system_content : str) : list Message :=
  [ {| role := system; content := system_content;
       completed := None; origin := by_init |} ].

Definition add_user_instruction (msgs : list Message) (text : str)
  : list Message :=
  msgs ++ [ {| role := user; content := text;
               completed := None; origin := by_instruction |} ].

Definition extend_content (text : str) (m : Message) : Message :=
  {| role := role m; content := content m ++ text;
     completed := completed m; origin := origin m |}.

Definition mark_completed (m : Message) : Message :=
  {| role := role m; content := content m;
     completed := Some true; origin := origin m |}.

Definition fresh_assistant (text : str) : Message :=
  {| role := assistant; content := text;
     completed := Some false; origin := by_assistant |}.

Definition append_assistant_content (msgs : list Message) (text : str)
  : list Message :=
  match current_assistant msgs with
  | Some (i, m) =>
      if negb (get_completed m) then alter (extend_content text) i msgs
      else msgs ++ [fresh_assistant text]
  | None => msgs ++ [fresh_assistant text]
  end.

Definition complete_current_assistant (msgs : list Message)
  : list Message :=
  match current_assistant msgs with
  | Some (i, m) =>
      if negb (get_completed m) then alter mark_completed i msgs else msgs
  | None => msgs
  end.

Definition add_tool_output_as_user_message (msgs : list Message)
    (tool_name out : str) : list Message :=
  msgs ++ [ {| role := user;
               content := tool_name ++ TOOL_OUTPUT_PREFIX ++ out;
               completed := None; origin := by_tool_output |} ].

Definition add_feedback_as_user_message (msgs : list Message)
    (feedback : str) : list Message :=
  msgs ++ [ {| role := user; content := feedback;
               completed := None; origin := by_feedback |} ].

End PromptManager.

(** ** agent.py *)

(** The values [process_iteration] and [run] return: [None], [False] or a
    string. *)
Inductive PyVal :=
| PyNone
| PyFalse
| PyStr (s : str).

Section TaskAgent.
Context `{External}.
Import PyStr.

Record TaskAgent := {
  max_iterations : Z;
  tool_processor : ToolProcessor;
  prompt_manager : list Message
}.

(** [TaskAgent.__init__]; the two model runners live in the world. *)
Definition new_task_agent (system_content : str) (fns : gmap str Tool)
    (max_iter : Z) : TaskAgent :=
  {| max_iterations := max_iter;
     tool_processor := new_tool_processor fns;
     prompt_manager := new_prompt_manager system_content |}.

Definition with_prompt_manager (a : TaskAgent) (msgs : list Message)
  : TaskAgent :=
  {| max_iterations := max_iterations a;
     tool_processor := tool_processor a;
     prompt_manager := msgs |}.

Definition with_tool_processor (a : TaskAgent) (tp : ToolProcessor)
  : TaskAgent :=
  {| max_iterations := max_iterations a;
     tool_processor := tp;
     prompt_manager := prompt_manager a |}.

Definition add_user_message (a : TaskAgent) (text : str) : TaskAgent :=
  with_prompt_manager a (add_user_instruction (prompt_manager a) text).

Definition should_continue (a : TaskAgent) (text : str) : bool :=
  negb (contains TASK_COMPLETE_TAG (lower text))
  && (0 <? max_iterations a).

(** The critic: one system message followed by the conversation; the
    streamed response is concatenated. *)
Definition get_feedback (context_messages : list Message) (w : World)
  : pyres str * World :=
  let feedback_messages :=
    {| role := system; content := FEEDBACK_AGENT_SYSTEM_PROMPT;
       completed := None; origin := by_init |} :: context_messages in
  let '(s, w1) := generate_tokens feedback_runner feedback_messages w in
  match failure s with
  | None => (Ok (concat (tokens s)), w1)
  | Some e => (Raise e, w1)
  end.

(** [f"{x}"] of an optional string *)
Definition format_optional (x : option str) : str :=
  match x with Some s => s | None => "None" end.

Definition process_tool_call (a : TaskAgent) (tool_call : ToolCall)
    (tool_call_text : str) (w : World) : pyres unit * TaskAgent * World :=
  let pm1 := append_assistant_content (prompt_manager a) tool_call_text in
  let pm2 := complete_current_assistant pm1 in
  let pm3 := add_tool_output_as_user_message pm2 (call_name tool_call)
               (format_optional (output tool_call)) in
  match get_feedback pm3 w with
  | (Raise e, w1) => (Raise e, with_prompt_manager a pm3, w1)
  | (Ok feedback, w1) =>
      (Ok (), with_prompt_manager a (add_feedback_as_user_message pm3 feedback),
       w1)
  end.

Definition handle_generation_output (a : TaskAgent) (token_buffer : str)
    (iteration : Z) (w : World) : pyres (bool * str) * TaskAgent * World :=
  match process_text (tool_processor a) token_buffer w with
  | (Raise e, tp1, w1) => (Raise e, with_tool_processor a tp1, w1)
  | (Ok (updated_buffer, tool_processed, tool_call), tp1, w1) =>
      let a1 := with_tool_processor a tp1 in
      match tool_processed, tool_call with
      | true, Some tc =>
          match process_tool_call a1 tc token_buffer w1 with
          | (Raise e, a2, w2) => (Raise e, a2, w2)
          | (Ok _, a2, w2) => (Ok (true, []), a2, w2)
          end
      | _, _ => (Ok (false, token_buffer), a1, w1)
      end
  end.

Definition check_completion (a : TaskAgent) : option str :=
  match last (assistant_msgs (prompt_manager a)) with
  | Some m =>
      if negb (should_continue a (content m)) then
        let lowered := lower (content m) in
        let task_complete_idx := find TASK_COMPLETE_TAG lowered in
        Some (or_else
                (strip (slice_from
                          (task_complete_idx + len TASK_COMPLETE_TAG)
                          (content m)))
                TASK_COMPLETE_DEFAULT_RESULT)
      else None
  | None => None
  end.

Definition handle_error (a : TaskAgent) (error : str) (w : World)
  : pyres PyVal * TaskAgent * World :=
  let error_msg := LF ++ "Error during execution: " ++ error in
  let pm1 := append_assistant_content (prompt_manager a) error_msg in
  let pm2 := complete_current_assistant pm1 in
  match get_feedback pm2 w with
  | (Raise e, w1) => (Raise e, with_prompt_manager a pm2, w1)
  | (Ok feedback, w1) =>
      let pm3 := add_feedback_as_user_message pm2 feedback in
      match last pm3 with
      | Some m => (Ok (PyStr (content m)), with_prompt_manager a pm3, w1)
      | None => (Raise "list index out of range", with_prompt_manager a pm3, w1)
      end
  end.

(** How the [for] loop over the token generator ends: by the [return]
    inside it, or by running out of tokens with the buffer built so far. *)
Inductive LoopExit :=
| Returned (v : PyVal)
| Exhausted (token_buffer : str).

Fixpoint consume_tokens (toks : list str) (token_buffer : str)
    (a : TaskAgent) (iteration : Z) (w : World)
  : pyres LoopExit * TaskAgent * World :=
  match toks with
  | [] => (Ok (Exhausted token_buffer), a, w)
  | token :: rest =>
      match handle_generation_output a (token_buffer ++ token) iteration w with
      | (Raise e, a1, w1) => (Raise e, a1, w1)
      | (Ok (true, _), a1, w1) => (Ok (Returned PyFalse), a1, w1)
      | (Ok (false, token_buffer'), a1, w1) =>
          consume_tokens rest token_buffer' a1 iteration w1
      end
  end.

Definition of_completion (r : option str) : PyVal :=
  match r with Some s => PyStr s | None => PyNone end.

(** The [try] block of [process_iteration]. *)
Definition generate_and_dispatch (a : TaskAgent) (iteration : Z) (w : World)
  : pyres PyVal * TaskAgent * World :=
  let '(s, w0) := generate_tokens main_runner (prompt_manager a) w in
  match consume_tokens (tokens s) [] a iteration w0 with
  | (Raise e, a1, w1) => (Raise e, a1, w1)
  | (Ok (Returned v), a1, w1) => (Ok v, a1, w1)
  | (Ok (Exhausted token_buffer), a1, w1) =>
      match failure s with
      | Some e => (Raise e, a1, w1)
      | None =>
          match handle_generation_output a1 token_buffer iteration w1 with
          | (Raise e, a2, w2) => (Raise e, a2, w2)
          | (Ok (tool_processed, token_buffer'), a2, w2) =>
              let a3 :=
                if negb tool_processed
                   && negb (bool_decide (token_buffer' = []))
                then with_prompt_manager a2
                       (append_assistant_content (prompt_manager a2)
                          token_buffer')
                else a2 in
              (Ok (of_completion (check_completion a3)), a3, w2)
          end
      end
  end.

Definition process_iteration (a : TaskAgent) (iteration : Z) (w : World)
  : pyres PyVal * TaskAgent * World :=
  match generate_and_dispatch a iteration w with
  | (Raise e, a1, w1) => handle_error a1 e w1
  | (Ok v, a1, w1) => (Ok v, a1, w1)
  end.

(** The [while] loop of [run] and what follows it.  [budget] bounds the
    passes still allowed: [max_iterations - iteration].  The second
    component of the result is the final value of the counter
    [iteration]. *)
Fixpoint run_loop (budget : nat) (iteration : Z) (a : TaskAgent) (w : World)
  : pyres PyVal * Z * TaskAgent * World :=
  match budget with
  | O =>
      let pm1 := append_assistant_content (prompt_manager a)
                   MAX_ITERATIONS_MESSAGE in
      let pm2 := complete_current_assistant pm1 in
      match last pm2 with
      | Some m => (Ok (PyStr (content m)), iteration, with_prompt_manager a pm2, w)
      | None => (Raise "list index out of range", iteration,
                 with_prompt_manager a pm2, w)
      end
  | S budget' =>
      let iteration1 := iteration + 1 in
      match process_iteration a iteration1 w with
      | (Raise e, a1, w1) => (Raise e, iteration1, a1, w1)
      | (Ok PyNone, a1, w1) => run_loop budget' iteration1 a1 w1
      | (Ok result, a1, w1) => (Ok result, iteration1, a1, w1)
      end
  end.

Definition run (a : TaskAgent) (w : World)
  : pyres PyVal * Z * TaskAgent * World :=
  match prompt_manager a !! 1%nat with
  | None => (Raise "list index out of range", 0, a, w)
  | Some _ => run_loop (Z.to_nat (max_iterations a)) 0 a w
  end.

End TaskAgent.

(** * Vocabulary of the statements *)

Section LogVocabulary.
Import PyStr.

(** [sub] occurs in [s] at offset [length p] *)
Definition occurs_at (sub s p : str) : Prop := exists q, s = p ++ sub ++ q.

Definition not_assistant (m : Message) : Prop := role m <> assistant.

(** A text of code points below U+0100, which [str.lower] maps character
    by character. *)
Definition latin_text (s : str) : bool :=
  forallb (fun c => match c with Latin _ => true | Beyond _ => false end) s.

Definition lower_latin_char (c : char) : char :=
  match c with
  | Latin a => Latin (lower_latin a)
  | Beyond n => Beyond n
  end.

(** Every assistant entry of the log is completed. *)
Definition turns_closed (msgs : list Message) : Prop :=
  forall j mj, msgs !! j = Some mj -> role mj = assistant ->
               completed mj = Some true.

(** An assistant entry that a later assistant entry follows is
    completed: only the last assistant entry can be open. *)
Definition one_open_turn (msgs : list Message) : Prop :=
  forall (i j : nat) mi mj,
    (i < j)%nat -> msgs !! i = Some mi -> msgs !! j = Some mj ->
    role mi = assistant -> role mj = assistant ->
    completed mi = Some true.

(** A tool-output entry is a user entry, and the assistant entries
    before it, of which there is at least one, are all completed. *)
Definition tool_outputs_follow_closed_turns (msgs : list Message) : Prop :=
  forall (k : nat) mk,
    msgs !! k = Some mk -> origin mk = by_tool_output ->
    role mk = user
    /\ (exists i mi, (i < k)%nat /\ msgs !! i = Some mi
                     /\ role mi = assistant /\ completed mi = Some true)
    /\ (forall j mj, (j < k)%nat -> msgs !! j = Some mj ->
                     role mj = assistant -> completed mj = Some true).

Definition log_wf (msgs : list Message) : Prop :=
  one_open_turn msgs /\ tool_outputs_follow_closed_turns msgs.

(** An in-place update that keeps role and origin and never reopens a
    completed entry. *)
Definition monotone_update (f : Message -> Message) : Prop :=
  forall m, role (f m) = role m /\ origin (f m) = origin m
            /\ (completed m = Some true -> completed (f m) = Some true).

(** An open assistant turn, if there is one, is the final entry of the
    log. *)
Definition open_turn_is_last (msgs : list Message) : Prop :=
  forall i m, current_assistant msgs = Some (i, m) ->
              get_completed m = false -> S i = length msgs.

End LogVocabulary.

Section AgentVocabulary.
Context `{External}.

(** The call after execution: its output recorded, flagged executed. *)
Definition executed_call (tc : ToolCall) (out : str) : ToolCall :=
  {| call_id := call_id tc; call_name := call_name tc;
     call_content := call_content tc;
     start_pos := start_pos tc; end_pos := end_pos tc;
     output := Some out; executed := true |}.

(** No marker becomes executable while the tokens [toks] are appended,
    one by one, to [token_buffer]. *)
Fixpoint quiet_from (tp : ToolProcessor) (token_buffer : str)
    (toks : list str) : bool :=
  match toks with
  | [] => true
  | token :: rest =>
      match find_unexecuted_tool_calls tp (token_buffer ++ token) with
      | [] => quiet_from tp (token_buffer ++ token) rest
      | _ :: _ => false
      end
  end.

(** The agent after an iteration whose stream ended with [token_buffer]
    and ran no tool (the [if not tool_processed and token_buffer]). *)
Definition keep_plain_text (a : TaskAgent) (token_buffer : str) : TaskAgent :=
  match token_buffer with
  | [] => a
  | _ :: _ =>
      with_prompt_manager a
        (append_assistant_content (prompt_manager a) token_buffer)
  end.

(** The agents that the operations of [TaskAgent] produce, from the
    constructor on, whatever the world answers. *)
Inductive reachable : TaskAgent -> Prop :=
| reach_new (system_content : str) (fns : gmap str Tool) (max_iter : Z) :
    reachable (new_task_agent system_content fns max_iter)
| reach_add_user_message (a : TaskAgent) (text : str) :
    reachable a -> reachable (add_user_message a text)
| reach_process_tool_call (a : TaskAgent) (tc : ToolCall) (text : str)
      (w : World) :
    reachable a -> reachable (process_tool_call a tc text w).1.2
| reach_handle_generation_output (a : TaskAgent) (token_buffer : str)
      (iteration : Z) (w : World) :
    reachable a ->
    reachable (handle_generation_output a token_buffer iteration w).1.2
| reach_handle_error (a : TaskAgent) (error : str) (w : World) :
    reachable a -> reachable (handle_error a error w).1.2
| reach_process_iteration (a : TaskAgent) (iteration : Z) (w : World) :
    reachable a -> reachable (process_iteration a iteration w).1.2
| reach_run (a : TaskAgent) (w : World) :
    reachable a -> reachable (run a w).1.2.

(** [budget] passes of the loop, from the counter value [iteration], each
    of which returned [None]: the state they leave. *)
Fixpoint passes_without_completion (budget : nat) (iteration : Z)
    (a : TaskAgent) (w : World) : option (TaskAgent * World) :=
  match budget with
  | O => Some (a, w)
  | S budget' =>
      match process_iteration a (iteration + 1) w with
      | (Ok PyNone, a1, w1) =>
          passes_without_completion budget' (iteration + 1) a1 w1
      | _ => None
      end
  end.

End AgentVocabulary.

(** ** A scripted world *)

Module Scenario.
Import PyStr.

(** The world is a script: the streams the two runners will produce, in
    the order of the calls. *)
Record Script := {
  main_script : list Stream;
  critic_script : list Stream
}.

Definition says (text : str) : Stream :=
  {| tokens := [text]; failure := None |}.

Definition fails (error : str) : Stream :=
  {| tokens := []; failure := Some error |}.

Definition scripted_generate (r : Runner) (msgs : list Message) (w : Script)
  : Stream * Script :=
  match r with
  | main_runner =>
      match main_script w with
      | s :: rest =>
          (s, {| main_script := rest; critic_script := critic_script w |})
      | [] => ({| tokens := []; failure := None |}, w)
      end
  | feedback_runner =>
      match critic_script w with
      | s :: rest =>
          (s, {| main_script := main_script w; critic_script := rest |})
      | [] => ({| tokens := []; failure := None |}, w)
      end
  end.

(** [json.loads] on the texts that no JSON value begins: a text that,
    after the blanks the decoder skips, is empty or starts with a
    character other than a quote, a brace, a bracket, a minus sign, a digit
    or one of [t], [f], [n], [N], [I], is answered with a
    [JSONDecodeError].  All the payloads used below are such texts.  This
    world has no JSON decoder for the others: it stops on them with an
    exception of its own. *)
Fixpoint skip_blanks (text : str) : str :=
  match text with
  | c :: rest =>
      if bool_decide (c ∈ (" " : str) ++ [Latin "009"; Latin "010"; Latin "013"])
      then skip_blanks rest else text
  | [] => []
  end.

Definition may_begin_json (c : char) : bool :=
  bool_decide (c ∈ (Latin "034" :: "{[-0123456789tfnNI" : str)).

Definition scripted_loads (text : str) : loads_result Empty_set :=
  match skip_blanks text with
  | c :: _ =>
      if may_begin_json c then LoadsFailure "no JSON decoder in this world"
      else JSONDecodeError "Expecting value"
  | [] => JSONDecodeError "Expecting value"
  end.

(** The texts of this world stay within U+0000..U+00FF, U+0130 and
    U+0307.  Of the code points from U+0100 on its character database
    knows these two: U+0130 is a letter, and U+0307, a combining mark, is
    neither a letter nor a digit and is its own lower case. *)
Definition scripted : External :=
  {| World := Script;
     Json := Empty_set;
     json_loads := scripted_loads;
     generate_tokens := scripted_generate;
     isalnum_beyond := fun n => bool_decide (n = 48%N);
     lower_beyond := fun _ n _ => [Beyond n] |}.

(** A shell that knows [echo] and prints nothing for any other command. *)
Definition shell : @Tool scripted :=
  fun args w =>
    match args with
    | Keyword key value =>
        if bool_decide (key = "command") then
          (Ok (if startswith "echo " value then strip (drop 5 value) else []),
           w)
        else (Raise "shell() got an unexpected keyword argument", w)
    | FromJson j => match j with end
    end.

Definition AVAILABLE_TOOLS : gmap str (@Tool scripted) :=
  {[ ("shell" : str) := shell ]}.

Definition agent (max_iter : Z) : @TaskAgent scripted :=
  @add_user_message scripted
    (@new_task_agent scripted "Available tools: shell" AVAILABLE_TOOLS max_iter)
    "greet me".

Definition entry (r : Role) (text : str) (c : option bool) (o : Origin)
  : Message :=
  {| role := r; content := text; completed := c; origin := o |}.

(** The stream of scenario 1, delivered in one fragment. *)
Definition single_shell_call : Script :=
  {| main_script := [says "okay [shell]|||echo hi||| done"];
     critic_script := [says "go on"] |}.

End Scenario.


(** ** prompt_manager.py: the context tail *)

Section ContextTail.
Import PyStr.

(** [PromptManager.get_context_tail], for a manager constructed with
    [context_tail_length]: [content[-n:] if len(content) > n else content]. *)
Definition get_context_tail (context_tail_length : Z) (msgs : list Message)
  : str :=
  match last (assistant_msgs msgs) with
  | None => []
  | Some m =>
      if context_tail_length <? len (content m) then
        slice_from (- context_tail_length) (content m)
      else content m
  end.

End ContextTail.

(** ** tools.py

    The two registered tools, as functions of what the subprocess they
    start does. *)

Module Tools.
Import PyStr.

(** A [bytes] value. *)
Abbreviation bytes := (list ascii).

(** The white space [bytes.strip] removes: TAB, LF, VT, FF, CR and the
    space. *)
Definition is_space_byte (b : ascii) : bool :=
  let n := N_of_ascii b in
  ((9 <=? n) && (n <=? 13) || (n =? 32))%N.

Fixpoint lstrip_bytes (b : bytes) : bytes :=
  match b with
  | c :: b' => if is_space_byte c then lstrip_bytes b' else b
  | [] => []
  end.

(** [b.strip()] *)
Definition strip_bytes (b : bytes) : bytes :=
  reverse (lstrip_bytes (reverse (lstrip_bytes b))).

Definition hex_digit (n : N) : ascii :=
  nth (N.to_nat n) (list_ascii_of_string "0123456789abcdef") "0"%char.

(** The quote [repr] puts around the bytes: the double quote when they
    hold a single quote and no double quote, the single quote otherwise. *)
Definition repr_quote (b : bytes) : ascii :=
  if bool_decide ("039"%char ∈ b) && negb (bool_decide ("034"%char ∈ b))
  then "034"%char else "039"%char.

Definition repr_byte (quote c : ascii) : bytes :=
  let n := N_of_ascii c in
  if bool_decide (c = quote) || bool_decide (c = "092"%char)
  then ["092"%char; c]
  else if (n =? 9)%N then ["092"%char; "t"%char]
  else if (n =? 10)%N then ["092"%char; "n"%char]
  else if (n =? 13)%N then ["092"%char; "r"%char]
  else if ((n <? 32) || (127 <=? n))%N
  then ["092"%char; "x"%char; hex_digit (n / 16); hex_digit (n mod 16)]
  else [c].

(** [str(b)], which is [repr(b)]: the form [b'...'] *)
Definition repr_bytes (b : bytes) : str :=
  Latin <$> ("b"%char :: repr_quote b
               :: concat (repr_byte (repr_quote b) <$> b) ++ [repr_quote b]).

(** What [TimeoutExpired.stdout] holds when it holds something: the text
    read so far or, where the interpreter leaves it undecoded, the bytes
    read so far. *)
Inductive Captured :=
| CapturedText (s : str)
| CapturedBytes (b : bytes).

(** How [subprocess.run] ends: the process exits, the timeout expires
    (with the output captured so far, if any), or the call fails otherwise. *)
Inductive SubprocessOutcome :=
| Exited (returncode : Z) (stdout stderr : str)
| TimeoutExpired (stdout : option Captured)
| OtherError (msg : str).

(** [shell(command, timeout)]: run with [check=True], a non-zero exit code
    raises [CalledProcessError], answered from [e.stderr]. *)
Definition shell (timeout : Z) (o : SubprocessOutcome) : str :=
  match o with
  | Exited returncode stdout stderr =>
      if bool_decide (returncode = 0) then strip stdout
      else "Error: " ++ strip stderr
  | TimeoutExpired stdout =>
      let captured : str :=
        match stdout with
        | Some (CapturedText (c :: s)) => strip (c :: s)
        | Some (CapturedBytes (c :: b)) => repr_bytes (strip_bytes (c :: b))
        | _ => "No output before timeout"
        end in
      "Command timed out after " ++ (pretty timeout : string)
        ++ " seconds. Output before timeout: " ++ captured
  | OtherError msg => "Error: " ++ msg
  end.

(** How the body of [run_python] ends: the script exits, or writing the
    temporary file or starting the interpreter fails. *)
Inductive ScriptOutcome :=
| ScriptExited (returncode : Z) (stdout stderr : str)
| ScriptError (msg : str).

(** [run_python(code)] *)
Definition run_python (o : ScriptOutcome) : str :=
  match o with
  | ScriptExited returncode stdout stderr =>
      if bool_decide (returncode = 0) then or_else (strip stdout) "no output"
      else "Error: " ++ strip stderr
  | ScriptError msg => "Error: " ++ msg
  end.

End Tools.

(** * Vocabulary of the further statements *)

Section FurtherVocabulary.
Context `{External}.

(** An entry no operation may touch any more: any entry but an assistant
    entry still open. *)
Definition settled (m : Message) : Prop :=
  role m <> assistant \/ completed m = Some true.

(** [msgs'] continues [msgs]: each entry of [msgs] is still there, at its
    index, with its role and with content that has only grown at its end;
    settled entries are unchanged. *)
Definition log_extends (msgs msgs' : list Message) : Prop :=
  forall i m, msgs !! i = Some m ->
    exists m', msgs' !! i = Some m'
               /\ role m' = role m
               /\ (exists more, content m' = content m ++ more)
               /\ (settled m -> m' = m).

(** The first entry is the system message. *)
Definition starts_with_system (msgs : list Message) : Prop :=
  exists text, msgs !! 0%nat = Some {| role := system; content := text;
                                      completed := None; origin := by_init |}.

(** [a'] has the cap and the registry of [a], and every executed call of
    [a]. *)
Definition same_configuration (a a' : TaskAgent) : Prop :=
  max_iterations a' = max_iterations a
  /\ available_functions (tool_processor a')
     = available_functions (tool_processor a)
  /\ executed_tools (tool_processor a) ⊆ executed_tools (tool_processor a').

(** The processors [process_text] produces from a new one. *)
Inductive processor_reachable : ToolProcessor -> Prop :=
| reach_new_tool_processor (fns : gmap str Tool) :
    processor_reachable (new_tool_processor fns)
| reach_process_text (tp : ToolProcessor) (text : str) (w : World) :
    processor_reachable tp ->
    processor_reachable (process_text tp text w).1.2.

End FurtherVocabulary.

(** ** Further scripted inputs *)

Module Inputs.
Import PyStr Scenario.

(** A registered tool whose subprocess ends the same way on every call. *)
Definition answering (result : str) : @Tool scripted :=
  fun _ w => (Ok result, w).

(** A call as the scan builds it for a marker at offset 0. *)
Definition call (name payload : str) : ToolCall :=
  {| call_id := tool_id 0; call_name := name; call_content := payload;
     start_pos := 0; end_pos := (length name + length payload + 8)%nat;
     output := None; executed := false |}.

Definition quiet_world : Script := {| main_script := []; critic_script := [] |}.

(** The call of the marker in [okay \[shell\]|||echo hi||| done]. *)
Definition echo_hi_call : ToolCall :=
  call_of_match {| Re.m_start := 5; Re.m_end := 25;
                   Re.group1 := "shell"; Re.group2 := "echo hi" |}.

(** A stream that yields two fragments and then raises. *)
Definition broken_stream : Stream :=
  {| tokens := [("partial " : str); ("text" : str)];
     failure := Some ("reset" : str) |}.

Definition failing_world : Script :=
  {| main_script := [broken_stream]; critic_script := [says "try again"] |}.

End Inputs.

(** * Properties *)

(** ** Strings *)

Section StringFacts.
Context `{External}.
Import PyStr.

Lemma truncate_take (x : str) : truncate x = take 1000 x.
Proof.
  unfold truncate, slice_to, len.
  destruct (Z.ltb_spec 1000 (Z.of_nat (length x))) as [Hlt | Hge];
    [reflexivity |].
  symmetry. apply take_ge. lia.
Qed.

Lemma length_truncate (x : str) : (length (truncate x) <= 1000)%nat.
Proof. rewrite truncate_take, length_take. lia. Qed.

Lemma startswith_spec (p s : str) :
  startswith p s = true <-> exists r, s = p ++ r.
Proof.
  revert s. induction p as [| a p IH]; intros s; simpl.
  - split; [exists s; reflexivity | reflexivity].
  - destruct s as [| b s].
    + split; [discriminate | intros [r Hr]; discriminate].
    + rewrite andb_true_iff, bool_decide_eq_true, IH. split.
      * intros [-> [r ->]]. exists r. reflexivity.
      * intros [r Hr]. injection Hr as -> ->. eauto.
Qed.


Lemma occurs_at_nil (sub s : str) :
  occurs_at sub s [] <-> startswith sub s = true.
Proof. unfold occurs_at. rewrite startswith_spec. reflexivity. Qed.

Lemma occurs_at_cons (sub s p : str) (c d : char) :
  occurs_at sub (c :: s) (d :: p) <-> c = d /\ occurs_at sub s p.
Proof.
  unfold occurs_at. split.
  - intros [q Hq]. injection Hq as -> ->. eauto.
  - intros [-> [q ->]]. eauto.
Qed.

Lemma contains_spec (sub s : str) :
  contains sub s = true <-> exists p, occurs_at sub s p.
Proof.
  induction s as [| c s IH]; cbn [contains]; rewrite orb_true_iff.
  - split.
    + intros [Hs | Hf]; [| discriminate].
      exists []. apply occurs_at_nil. exact Hs.
    + intros [p [q Hq]]. left. destruct p; [| discriminate].
      apply occurs_at_nil. exists q. exact Hq.
  - rewrite IH. split.
    + intros [Hs | [p Hp]].
      * exists []. apply occurs_at_nil. exact Hs.
      * exists (c :: p). apply occurs_at_cons. auto.
    + intros [[| d p] Hp].
      * left. apply occurs_at_nil. exact Hp.
      * right. apply occurs_at_cons in Hp as [_ Hp]. eauto.
Qed.

(** [find] returns the offset of the leftmost occurrence, or -1 when
    there is none. *)
Lemma find_spec (sub s : str) :
  (find sub s = -1 /\ forall p, ~ occurs_at sub s p)
  \/ (exists pre, occurs_at sub s pre /\ find sub s = len pre
        /\ forall p, occurs_at sub s p -> (length pre <= length p)%nat).
Proof.
  induction s as [| c s IH]; cbn [find].
  - destruct (startswith sub []) eqn:Hs.
    + right. exists []. split; [apply occurs_at_nil; exact Hs |].
      split; [reflexivity | intros; cbn; lia].
    + left. split; [reflexivity |]. intros [| d p] [q Hq]; [| discriminate].
      assert (Ht : startswith sub [] = true)
        by (apply occurs_at_nil; exists q; exact Hq).
      congruence.
  - destruct (startswith sub (c :: s)) eqn:Hs.
    + right. exists []. split; [apply occurs_at_nil; exact Hs |].
      split; [reflexivity | intros; cbn; lia].
    + assert (Hno : ~ occurs_at sub (c :: s) []).
      { intros Ho. apply occurs_at_nil in Ho. congruence. }
      destruct IH as [[Hf Hnone] | (pre & Hpre & Hf & Hmin)]; rewrite Hf.
      * left. split; [reflexivity |]. intros [| d p] Hp; [tauto |].
        apply occurs_at_cons in Hp as [_ Hp]. exact (Hnone _ Hp).
      * right. exists (c :: pre). unfold len.
        destruct (Z.ltb_spec (Z.of_nat (length pre)) 0) as [Hneg | _];
          [lia |].
        split; [apply occurs_at_cons; auto |].
        split; [cbn [length]; lia |].
        intros [| d p] Hp; [tauto |].
        apply occurs_at_cons in Hp as [_ Hp]. apply Hmin in Hp.
        cbn [length]. lia.
Qed.

Lemma find_leftmost (sub s pre : str) :
  occurs_at sub s pre ->
  (forall p, occurs_at sub s p -> (length pre <= length p)%nat) ->
  find sub s = len pre.
Proof.
  intros Hpre Hmin.
  destruct (find_spec sub s) as [[_ Hnone] | (pre' & Hpre' & -> & Hmin')].
  - destruct (Hnone _ Hpre).
  - apply Hmin in Hpre'. apply Hmin' in Hpre. unfold len. lia.
Qed.

Lemma find_le_occurrence (sub s p : str) :
  occurs_at sub s p -> 0 <= find sub s <= len p.
Proof.
  intros Hp.
  destruct (find_spec sub s) as [[_ Hnone] | (pre & _ & -> & Hmin)].
  - destruct (Hnone _ Hp).
  - apply Hmin in Hp. unfold len. lia.
Qed.

Lemma latin_text_app (s t : str) :
  latin_text (s ++ t) = latin_text s && latin_text t.
Proof. unfold latin_text. apply forallb_app. Qed.

Lemma lower_from_latin (before s : str) :
  latin_text s = true -> lower_from before s = lower_latin_char <$> s.
Proof.
  revert before. induction s as [| c s IH]; intros before; [reflexivity |].
  cbn [latin_text forallb lower_from fmap list_fmap].
  destruct c as [a | n]; [| discriminate]. cbn [andb]. intros Hs.
  fold (latin_text s) in Hs.
  cbn [lower_char lower_latin_char app]. f_equal. apply IH. exact Hs.
Qed.

Lemma lower_latin_text (s : str) :
  latin_text s = true -> lower s = lower_latin_char <$> s.
Proof. apply lower_from_latin. Qed.

Lemma latin_text_lower (s : str) :
  latin_text s = true -> latin_text (lower s) = true.
Proof.
  intros Hs. rewrite lower_latin_text by exact Hs. revert Hs.
  induction s as [| [a | n] s IH]; cbn; auto.
Qed.

Lemma length_lower (s : str) :
  latin_text s = true -> length (lower s) = length s.
Proof. intros Hs. rewrite lower_latin_text by exact Hs. apply length_fmap. Qed.

Lemma lower_app (s t : str) :
  latin_text (s ++ t) = true -> lower (s ++ t) = lower s ++ lower t.
Proof.
  intros Hst. rewrite lower_latin_text by exact Hst.
  rewrite latin_text_app in Hst. apply andb_true_iff in Hst as [Hs Ht].
  rewrite !lower_latin_text by assumption. apply fmap_app.
Qed.

(** An occurrence in the lowered copy of a text of U+0000..U+00FF is an
    occurrence, up to case, at the same offset of the text itself. *)
Lemma lower_occurrence (s sub pre : str) :
  latin_text s = true ->
  occurs_at sub (lower s) pre ->
  exists before tag after,
    s = before ++ tag ++ after
    /\ lower before = pre /\ lower tag = sub.
Proof.
  intros Hs [q Hq]. rewrite lower_latin_text in Hq by exact Hs.
  apply fmap_app_inv in Hq as (before & rest & Hb & Hrest & ->).
  symmetry in Hrest.
  apply fmap_app_inv in Hrest as (tag & after & Ht & Ha & ->).
  rewrite !latin_text_app in Hs.
  apply andb_true_iff in Hs as [Hbefore Hs].
  apply andb_true_iff in Hs as [Htag _].
  exists before, tag, after. rewrite !lower_latin_text by assumption. auto.
Qed.

Lemma slice_from_app (before rest : str) :
  slice_from (len before) (before ++ rest) = rest.
Proof.
  unfold slice_from, len.
  destruct (Z.ltb_spec (Z.of_nat (length before)) 0) as [Hneg | _]; [lia |].
  rewrite Nat2Z.id. apply drop_app_length.
Qed.

Lemma lstrip_app (x z : str) (c : char) :
  is_space c = false -> lstrip (x ++ c :: z) = lstrip x ++ c :: z.
Proof.
  intros Hc. induction x as [| a x IH]; cbn [app lstrip].
  - rewrite Hc. reflexivity.
  - destruct (is_space a); [exact IH | reflexivity].
Qed.

Lemma rstrip_app (z y : str) (c : char) :
  is_space c = false -> rstrip (z ++ c :: y) = z ++ c :: rstrip y.
Proof.
  intros Hc. unfold rstrip.
  rewrite reverse_app, reverse_cons, <- app_assoc. cbn [app].
  rewrite lstrip_app by exact Hc.
  rewrite reverse_app, reverse_cons, reverse_involutive.
  rewrite <- app_assoc. reflexivity.
Qed.

(** Trimming leaves a block that begins and ends with a character other
    than white space where it is. *)
Lemma strip_around (x y t : str) (c d : char) :
  is_space c = false -> is_space d = false ->
  strip (x ++ (c :: t ++ [d]) ++ y) = lstrip x ++ (c :: t ++ [d]) ++ rstrip y.
Proof.
  intros Hc Hd. unfold strip. cbn [app]. rewrite lstrip_app by exact Hc.
  assert (E : lstrip x ++ c :: (t ++ [d]) ++ y
              = (lstrip x ++ c :: t) ++ d :: y)
    by (rewrite <- !app_assoc; reflexivity).
  rewrite E, rstrip_app by exact Hd.
  rewrite <- !app_assoc. reflexivity.
Qed.

End StringFacts.

(** ** The scanner *)

Section ScannerFacts.
Context `{External}.
Import PyStr Re.

Lemma span_word_spec (s w r : str) :
  span_word s = (w, r) -> s = w ++ r /\ Forall (fun c => is_word c = true) w.
Proof.
  revert w r. induction s as [| c s IH]; intros w r; simpl.
  - intros [= <- <-]. split; [reflexivity | constructor].
  - destruct (is_word c) eqn:Hc.
    + destruct (span_word s) as [w' r'] eqn:Hs. intros [= <- <-].
      destruct (IH _ _ eq_refl) as [-> Hw]. split; [reflexivity |].
      constructor; assumption.
    + intros [= <- <-]. split; [reflexivity | constructor].
Qed.

Lemma lazy_until_bars_spec (s body : str) :
  lazy_until_bars s = Some body ->
  exists r, s = body ++ "|||" ++ r.
Proof.
  revert body. induction s as [| c s IH]; intros body.
  - simpl. discriminate.
  - cbn [lazy_until_bars].
    destruct (startswith "|||" (c :: s)) eqn:Hp.
    + intros [= <-]. apply startswith_spec in Hp. exact Hp.
    + destruct (lazy_until_bars s) as [b |] eqn:Hs; [| discriminate].
      intros [= <-]. destruct (IH _ eq_refl) as [r ->].
      exists r. reflexivity.
Qed.

(** What [match_here] accepts is a marker at the head of the text. *)
Lemma match_here_spec (s g1 g2 : str) (n : nat) :
  match_here s = Some (g1, g2, n) ->
  (exists r, s = "[" ++ g1 ++ "]|||" ++ g2 ++ "|||" ++ r)
  /\ g1 <> []
  /\ Forall (fun c => is_word c = true) g1
  /\ n = length ("[" ++ g1 ++ "]|||" ++ g2 ++ "|||" : str).
Proof.
  unfold match_here. destruct s as [| c s1]; [discriminate |].
  case_bool_decide as Hc; [subst c | discriminate].
  destruct (span_word s1) as [name s2] eqn:Hspan.
  destruct name as [| a name]; [discriminate |].
  destruct (startswith "]|||" s2) eqn:Hopen; [| discriminate].
  destruct (lazy_until_bars (drop 4 s2)) as [body |] eqn:Hbody;
    [| discriminate].
  cbn [mbind option_bind]. intros [= <- <- <-].
  apply span_word_spec in Hspan as [-> Hword].
  apply startswith_spec in Hopen as [r ->].
  change (drop 4 ("]|||" ++ r)) with r in Hbody.
  apply lazy_until_bars_spec in Hbody as [r' ->].
  split; [exists r'; reflexivity |].
  split; [discriminate |]. split; [assumption |].
  repeat (rewrite length_app || cbn [app str_of_string length]).
  lia.
Qed.

Lemma match_here_pos (s g1 g2 : str) (n : nat) :
  match_here s = Some (g1, g2, n) -> (0 < n)%nat.
Proof.
  intros Hm. apply match_here_spec in Hm as (_ & _ & _ & ->).
  cbn [app str_of_string length]. lia.
Qed.

Lemma finditer_from_ge (s : str) (pos skip : nat) (m : Match) :
  m ∈ finditer_from pos skip s -> (pos + skip <= m_start m)%nat.
Proof.
  revert pos skip. induction s as [| c s IH]; intros pos skip; cbn [finditer_from].
  - intros Hin. inversion Hin.
  - destruct skip as [| k].
    + destruct (match_here (c :: s)) as [[[g1 g2] n] |] eqn:Hm.
      * intros [-> | Hin]%elem_of_cons; [cbn [m_start]; lia |].
        apply IH in Hin. lia.
      * intros Hin. apply IH in Hin. lia.
    + intros Hin. apply IH in Hin. lia.
Qed.

(** [finditer] reports its matches from left to right. *)
Lemma finditer_from_sorted (s : str) (pos skip : nat) :
  StronglySorted (fun a b => (m_start a < m_start b)%nat)
                 (finditer_from pos skip s).
Proof.
  revert pos skip. induction s as [| c s IH]; intros pos skip; cbn [finditer_from].
  - constructor.
  - destruct skip as [| k]; [| apply IH].
    destruct (match_here (c :: s)) as [[[g1 g2] n] |] eqn:Hm; [| apply IH].
    constructor; [apply IH |].
    apply Forall_forall. intros m Hin.
    apply finditer_from_ge in Hin. cbn [m_start]. lia.
Qed.

(** Each reported match is a marker of the scanned text, at the reported
    offset. *)
Lemma finditer_from_sound (pre s : str) (skip : nat) (m : Match) :
  m ∈ finditer_from (length pre) skip s ->
  exists before after,
    pre ++ s = before ++ "[" ++ group1 m ++ "]|||" ++ group2 m ++ "|||" ++ after
    /\ length before = m_start m
    /\ group1 m <> []
    /\ Forall (fun c => is_word c = true) (group1 m)
    /\ m_end m = (m_start m
                  + length ("[" ++ group1 m ++ "]|||" ++ group2 m ++ "|||" : str))%nat.
Proof.
  revert pre skip. induction s as [| c s IH]; intros pre skip; cbn [finditer_from].
  - intros Hin. inversion Hin.
  - assert (Hstep : forall k, m ∈ finditer_from (S (length pre)) k s ->
              exists before after,
                pre ++ c :: s = before ++ "[" ++ group1 m ++ "]|||" ++ group2 m ++ "|||" ++ after
                /\ length before = m_start m
                /\ group1 m <> []
                /\ Forall (fun c => is_word c = true) (group1 m)
                /\ m_end m = (m_start m
                              + length ("[" ++ group1 m ++ "]|||" ++ group2 m ++ "|||" : str))%nat).
    { intros k Hin. specialize (IH (pre ++ [c]) k).
      rewrite length_app, Nat.add_1_r in IH. cbn [length] in IH.
      rewrite <- app_assoc in IH. apply IH. exact Hin. }
    destruct skip as [| k]; [| apply Hstep].
    destruct (match_here (c :: s)) as [[[g1 g2] n] |] eqn:Hm; [| apply Hstep].
    intros [-> | Hin]%elem_of_cons; [| eapply Hstep; exact Hin].
    apply match_here_spec in Hm as ([r Hr] & Hne & Hw & Hn).
    exists pre, r. cbn [m_start m_end group1 group2].
    rewrite Hr. repeat split; try assumption. rewrite Hn. reflexivity.
Qed.

End ScannerFacts.

(** ** The tool processor *)

Section ToolProcessorFacts.
Context `{External}.
Import PyStr.

Lemma execute_tool_effect (tp tp1 : ToolProcessor) (tc : ToolCall)
    (w w1 : World) (r : pyres str) :
  execute_tool tp tc w = (r, tp1, w1) ->
  available_functions tp1 = available_functions tp
  /\ executed_tools tp1 = executed_tools tp
  /\ (calls_logged tp1 = calls_logged tp
      \/ calls_logged tp1 = calls_logged tp ++ [(call_name tc, call_id tc)]).
Proof.
  unfold execute_tool, call_function.
  destruct (available_functions tp !! call_name tc) as [f |].
  - destruct (build_args tc) as [args | e].
    + destruct (f args w) as [[out | e] w2]; intros [= <- <- <-];
        cbn; auto.
    + intros [= <- <- <-]. auto.
  - intros [= <- <- <-]. auto.
Qed.


(** The calls [find_unexecuted_tool_calls] returns are markers of the
    text, in the order of their offsets, whose ids are not in the
    executed table. *)
Lemma find_unexecuted_sound (tp : ToolProcessor) (text : str) (tc : ToolCall) :
  tc ∈ find_unexecuted_tool_calls tp text ->
  executed_tools tp !! call_id tc = None
  /\ call_id tc = tool_id (start_pos tc)
  /\ output tc = None /\ executed tc = false
  /\ exists before raw after,
       text = before ++ "[" ++ call_name tc ++ "]|||" ++ raw ++ "|||" ++ after
       /\ length before = start_pos tc
       /\ call_content tc = strip raw.
Proof.
  unfold find_unexecuted_tool_calls. intros Hin.
  apply list_elem_of_omap in Hin as (m & Hm & Hf).
  destruct (executed_tools tp !! tool_id (Re.m_start m)) eqn:Hex;
    [discriminate |].
  injection Hf as <-. cbn.
  repeat split; try assumption.
  apply (finditer_from_sound [] text 0 m) in Hm
    as (before & after & Heq & Hlen & _).
  exists before, (Re.group2 m), after. auto.
Qed.


Lemma execute_tool_wrapped (tp : ToolProcessor) (tc : ToolCall) (w : World) :
  exists inner : str,
    (execute_tool tp tc w).1.1 = Ok ("<<< " ++ inner ++ " >>>")
    /\ (length inner <= 1000)%nat.
Proof.
  unfold execute_tool, call_function.
  destruct (available_functions tp !! call_name tc) as [f |].
  - destruct (build_args tc) as [args | e].
    + destruct (f args w) as [[out | e] w1]; cbn [fst];
        eexists; (split; [reflexivity | apply length_truncate]).
    + cbn [fst]. eexists. split; [reflexivity | apply length_truncate].
  - cbn [fst]. eexists. split; [reflexivity | apply length_truncate].
Qed.

(** C6. Whatever the call (a tool that returns, an unknown name, a
    payload the tool cannot take, a tool that raises), [execute_tool]
    returns, without raising, the text [<<< inner >>>] with [inner] of at
    most 1000 characters: the first 1000 characters of the trimmed result
    of the tool, of [no output] when the result is empty, or of the error
    message. *)
Theorem execute_tool_envelope (tp : ToolProcessor) (tc : ToolCall) (w : World) :
  exists inner : str,
    (execute_tool tp tc w).1.1 = Ok ("<<< " ++ inner ++ " >>>")
    /\ (length inner <= 1000)%nat
    /\ match available_functions tp !! call_name tc with
       | Some f =>
           match build_args tc with
           | Ok args =>
               match (f args w).1 with
               | Ok out =>
                   inner = take 1000 (match out with
                                      | [] => "no output" : str
                                      | _ :: _ => strip out
                                      end)
               | Raise e =>
                   inner = take 1000 ("Error executing tool "
                                        ++ call_name tc ++ ": " ++ e)
               end
           | Raise e =>
               inner = take 1000 ("Error executing tool "
                                    ++ call_name tc ++ ": " ++ e)
           end
       | None =>
           inner = take 1000 ("Error: Function " ++ call_name tc
                                ++ " not found")
       end.
Proof.
  unfold execute_tool, call_function.
  destruct (available_functions tp !! call_name tc) as [f |].
  - destruct (build_args tc) as [args | e].
    + destruct (f args w) as [[out | e] w1]; cbn [fst];
        eexists; (split; [reflexivity |]);
        (split; [apply length_truncate | apply truncate_take]).
    + cbn [fst]. eexists. split; [reflexivity |].
      split; [apply length_truncate | apply truncate_take].
  - cbn [fst]. eexists. split; [reflexivity |].
    split; [apply length_truncate | apply truncate_take].
Qed.


(** What [process_text] does with the head of the list of unexecuted
    calls. *)
Lemma process_text_runs_head (tp : ToolProcessor) (text : str) (w : World)
    (tc : ToolCall) (others : list ToolCall) :
  find_unexecuted_tool_calls tp text = tc :: others ->
  exists (result : str) (tp1 : ToolProcessor) (w1 : World),
    execute_tool tp tc w = (Ok ("<<< " ++ result ++ " >>>"), tp1, w1)
    /\ (length result <= 1000)%nat
    /\ exists tp2 : ToolProcessor,
         process_text tp text w =
           (Ok (text ++ LF ++ call_name tc ++ " output:" ++ LF
                     ++ "<<< " ++ result ++ " >>>",
                true,
                Some (executed_call tc ("<<< " ++ result ++ " >>>"))),
            tp2, w1)
         /\ executed_tools tp2 =
              <[call_id tc := executed_call tc ("<<< " ++ result ++ " >>>")]>
                (executed_tools tp)
         /\ available_functions tp2 = available_functions tp
         /\ (calls_logged tp2 = calls_logged tp
             \/ calls_logged tp2 =
                  calls_logged tp ++ [(call_name tc, call_id tc)]).
Proof.
  intros Hfind. unfold process_text. rewrite Hfind.
  destruct (execute_tool_wrapped tp tc w) as (inner & Hout & Hlen).
  destruct (execute_tool tp tc w) as [[r tp1] w1] eqn:Hexec.
  cbn [fst] in Hout. subst r.
  apply execute_tool_effect in Hexec as (Hfns & Htab & Hlog).
  exists inner, tp1, w1. split; [reflexivity |]. split; [exact Hlen |].
  eexists. split; [reflexivity |]. cbn.
  rewrite Htab, Hfns. auto.
Qed.

(** Once a call has been run, no scan of any text returns a call at its
    offset again. *)
Lemma executed_offset_never_returned (tp tp2 : ToolProcessor)
    (text text' : str) (w w1 : World) (tc c : ToolCall)
    (others : list ToolCall) (r : pyres (str * bool * option ToolCall)) :
  find_unexecuted_tool_calls tp text = tc :: others ->
  process_text tp text w = (r, tp2, w1) ->
  c ∈ find_unexecuted_tool_calls tp2 text' ->
  start_pos c <> start_pos tc.
Proof.
  intros Hfind Hpt Hc Heq.
  assert (Hin : tc ∈ find_unexecuted_tool_calls tp text)
    by (rewrite Hfind; left).
  apply find_unexecuted_sound in Hin as (_ & Hid & _).
  apply find_unexecuted_sound in Hc as (Hnone & Hidc & _).
  destruct (process_text_runs_head tp text w tc others Hfind)
    as (result & tp1 & w1' & _ & _ & tp2' & Hpt' & Htab & _).
  rewrite Hpt in Hpt'. injection Hpt' as _ <- _.
  rewrite Htab, Hidc, Heq, <- Hid, lookup_insert_eq in Hnone.
  discriminate.
Qed.


End ToolProcessorFacts.

(** ** The prompt manager *)

Section PromptManagerFacts.


Lemma alter_middle {A : Type} (f : A -> A) (before after : list A) (x : A) :
  alter f (length before) (before ++ x :: after) = before ++ f x :: after.
Proof. induction before as [| b before IH]; cbn; [| rewrite IH]; reflexivity. Qed.

Lemma assistant_msgs_none (msgs : list Message) :
  Forall not_assistant msgs -> assistant_msgs msgs = [].
Proof.
  unfold assistant_msgs. induction 1 as [| m msgs Hm _ IH]; [reflexivity |].
  rewrite filter_cons_False; assumption.
Qed.

(** [current_assistant] picks the last assistant entry of the log. *)
Lemma current_assistant_some (msgs : list Message) (i : nat) (m : Message) :
  current_assistant msgs = Some (i, m) ->
  exists before after,
    msgs = before ++ m :: after /\ length before = i
    /\ role m = assistant /\ Forall not_assistant after.
Proof.
  revert i. induction msgs as [| x msgs IH]; intros i; cbn [current_assistant].
  - discriminate.
  - destruct (current_assistant msgs) as [[j a] |] eqn:Hcur.
    + intros [= <- <-].
      destruct (IH _ eq_refl) as (before & after & -> & <- & Hr & Hafter).
      exists (x :: before), after. auto.
    + unfold is_assistant. case_bool_decide as Hx; [| discriminate].
      intros [= <- <-]. exists [], msgs. repeat split; try assumption.
      clear IH Hx. induction msgs as [| y msgs IH]; [constructor |].
      cbn [current_assistant] in Hcur.
      destruct (current_assistant msgs) as [[j a] |]; [discriminate |].
      unfold is_assistant in Hcur. case_bool_decide as Hy; [discriminate |].
      constructor; [exact Hy | apply IH; reflexivity].
Qed.

Lemma current_assistant_none (msgs : list Message) :
  current_assistant msgs = None -> Forall not_assistant msgs.
Proof.
  induction msgs as [| y msgs IH]; [constructor |].
  cbn [current_assistant].
  destruct (current_assistant msgs) as [[j a] |]; [discriminate |].
  unfold is_assistant. case_bool_decide as Hy; [discriminate |].
  constructor; [exact Hy | apply IH; reflexivity].
Qed.

Lemma current_assistant_split (before after : list Message) (m : Message) :
  role m = assistant -> Forall not_assistant after ->
  current_assistant (before ++ m :: after) = Some (length before, m).
Proof.
  intros Hm Hafter.
  assert (Hnone : current_assistant after = None).
  { induction Hafter as [| y after Hy _ IH]; [reflexivity |].
    cbn [current_assistant]. rewrite IH. unfold is_assistant.
    rewrite bool_decide_eq_false_2; [reflexivity | exact Hy]. }
  induction before as [| b before IH]; cbn [app length current_assistant].
  - rewrite Hnone. unfold is_assistant.
    rewrite bool_decide_eq_true_2; [reflexivity | exact Hm].
  - rewrite IH. reflexivity.
Qed.

(** It is the element [assistant_msgs[-1]] of the source. *)
Lemma last_assistant_msgs (msgs : list Message) :
  last (assistant_msgs msgs) = snd <$> current_assistant msgs.
Proof.
  destruct (current_assistant msgs) as [[i m] |] eqn:Hcur; cbn.
  - apply current_assistant_some in Hcur
      as (before & after & -> & _ & Hm & Hafter).
    unfold assistant_msgs. rewrite filter_app, filter_cons_True by exact Hm.
    fold (assistant_msgs after). rewrite (assistant_msgs_none after Hafter).
    apply last_snoc.
  - apply current_assistant_none in Hcur.
    rewrite assistant_msgs_none; [reflexivity | exact Hcur].
Qed.

(** C9, as the code has it.  [append_assistant_content] looks at the last
    entry of role assistant, wherever it stands in the log: when that
    entry is not completed its content is extended in place and nothing
    else changes; when it is completed, or the log has no assistant
    entry, a new entry [{assistant, text, completed=false}] is appended
    at the end. *)
Theorem append_assistant_content_spec (msgs : list Message) (text : str) :
  match last (assistant_msgs msgs) with
  | Some m =>
      if get_completed m then
        append_assistant_content msgs text = msgs ++ [fresh_assistant text]
      else
        exists before after,
          msgs = before ++ m :: after
          /\ Forall not_assistant after
          /\ append_assistant_content msgs text =
               before ++ extend_content text m :: after
  | None =>
      append_assistant_content msgs text = msgs ++ [fresh_assistant text]
  end.
Proof.
  rewrite last_assistant_msgs. unfold append_assistant_content.
  destruct (current_assistant msgs) as [[i m] |] eqn:Hcur; cbn;
    [| reflexivity].
  destruct (get_completed m); cbn; [reflexivity |].
  apply current_assistant_some in Hcur
    as (before & after & -> & <- & Hm & Hafter).
  exists before, after. rewrite alter_middle. auto.
Qed.

End PromptManagerFacts.

(** ** The task agent: completion *)

Section CompletionFacts.
Context `{External}.
Import PyStr.


Lemma with_tool_processor_same (a : TaskAgent) :
  with_tool_processor a (tool_processor a) = a.
Proof. destruct a; reflexivity. Qed.

Lemma lower_latin_char_space (c : char) :
  is_space c = true -> lower_latin_char c = c.
Proof.
  destruct c as [a | n]; [| reflexivity].
  destruct a as [[|] [|] [|] [|] [|] [|] [|] [|]]; vm_compute;
    solve [reflexivity | discriminate].
Qed.

(** A sentinel of U+0000..U+00FF, in whatever case, has 15 characters and
    neither begins nor ends with white space. *)
Lemma sentinel_shape (tag : str) :
  latin_text tag = true ->
  lower tag = TASK_COMPLETE_TAG ->
  length tag = 15%nat
  /\ exists c t d, tag = c :: t ++ [d]
                   /\ is_space c = false /\ is_space d = false.
Proof.
  intros Hlatin. rewrite lower_latin_text by exact Hlatin.
  unfold TASK_COMPLETE_TAG. intros Htag.
  do 15 (destruct tag as [| ? tag]; [discriminate |]).
  destruct tag; [| discriminate].
  cbn in Htag. injection Htag as Hc _ _ _ _ _ _ _ _ _ _ _ _ _ Hd.
  split; [reflexivity |].
  eexists _, [_; _; _; _; _; _; _; _; _; _; _; _; _], _.
  split; [reflexivity |]. split.
  - match type of Hc with
    | lower_latin_char ?c = _ =>
        destruct (is_space c) eqn:Hs; [| reflexivity];
        rewrite (lower_latin_char_space _ Hs) in Hc; subst c; discriminate
    end.
  - match type of Hd with
    | lower_latin_char ?d = _ =>
        destruct (is_space d) eqn:Hs; [| reflexivity];
        rewrite (lower_latin_char_space _ Hs) in Hd; subst d; discriminate
    end.
Qed.

(** The result of the completion check when the content of the latest
    assistant entry is a text of U+0000..U+00FF and its leftmost sentinel
    stands between [before] and [after]. *)
Lemma check_completion_at (a : TaskAgent) (m : Message)
    (before tag after : str) :
  last (assistant_msgs (prompt_manager a)) = Some m ->
  latin_text (content m) = true ->
  content m = before ++ tag ++ after ->
  lower tag = TASK_COMPLETE_TAG ->
  (forall p, occurs_at TASK_COMPLETE_TAG (lower (content m)) p ->
             (length before <= length p)%nat) ->
  check_completion a =
    Some (or_else (strip after) TASK_COMPLETE_DEFAULT_RESULT).
Proof.
  intros Hlast Hlatin Hsplit Htag Hleft.
  assert (Hparts : latin_text before = true /\ latin_text tag = true
                   /\ latin_text (tag ++ after) = true).
  { rewrite Hsplit, latin_text_app in Hlatin.
    apply andb_true_iff in Hlatin as [Hb Hrest].
    pose proof Hrest as Hta. rewrite latin_text_app in Hrest.
    apply andb_true_iff in Hrest as [Ht _]. auto. }
  destruct Hparts as (Hb & Ht & Hta).
  assert (Hocc : occurs_at TASK_COMPLETE_TAG (lower (content m)) (lower before)).
  { exists (lower after).
    rewrite Hsplit, lower_app by (rewrite <- Hsplit; exact Hlatin).
    rewrite lower_app by exact Hta. rewrite Htag. reflexivity. }
  unfold check_completion, should_continue. rewrite Hlast.
  assert (Hin : contains TASK_COMPLETE_TAG (lower (content m)) = true)
    by (apply contains_spec; eauto).
  rewrite Hin. cbn [negb andb].
  rewrite (find_leftmost _ _ (lower before) Hocc)
    by (intros p Hp; rewrite length_lower by exact Hb; auto).
  destruct (sentinel_shape tag Ht Htag) as [Hlen _].
  replace (len (lower before) + len TASK_COMPLETE_TAG)
    with (len (before ++ tag))
    by (unfold len; rewrite length_app, length_lower, Hlen by exact Hb;
        cbn; lia).
  rewrite Hsplit, app_assoc, slice_from_app. reflexivity.
Qed.

Lemma handle_generation_output_quiet (a : TaskAgent) (token_buffer : str)
    (iteration : Z) (w : World) :
  find_unexecuted_tool_calls (tool_processor a) token_buffer = [] ->
  handle_generation_output a token_buffer iteration w
  = (Ok (false, token_buffer), a, w).
Proof.
  intros Hq. unfold handle_generation_output, process_text. rewrite Hq.
  rewrite with_tool_processor_same. reflexivity.
Qed.

Lemma consume_tokens_quiet (toks : list str) (token_buffer : str)
    (a : TaskAgent) (iteration : Z) (w : World) :
  quiet_from (tool_processor a) token_buffer toks = true ->
  consume_tokens toks token_buffer a iteration w
  = (Ok (Exhausted (token_buffer ++ concat toks)), a, w).
Proof.
  revert token_buffer.
  induction toks as [| token rest IH]; intros token_buffer;
    cbn [quiet_from consume_tokens concat].
  - rewrite app_nil_r. reflexivity.
  - destruct (find_unexecuted_tool_calls (tool_processor a)
                (token_buffer ++ token)) eqn:Hq; [| discriminate].
    intros Hrest. rewrite handle_generation_output_quiet by exact Hq.
    rewrite IH by exact Hrest. rewrite <- app_assoc. reflexivity.
Qed.

Lemma quiet_from_final (tp : ToolProcessor) (toks : list str)
    (token_buffer : str) :
  find_unexecuted_tool_calls tp token_buffer = [] ->
  quiet_from tp token_buffer toks = true ->
  find_unexecuted_tool_calls tp (token_buffer ++ concat toks) = [].
Proof.
  revert token_buffer.
  induction toks as [| token rest IH]; intros token_buffer Hb;
    cbn [quiet_from concat].
  - rewrite app_nil_r. auto.
  - destruct (find_unexecuted_tool_calls tp (token_buffer ++ token)) eqn:Hq;
      [| discriminate].
    intros Hrest. rewrite app_assoc. apply IH; assumption.
Qed.

(** An iteration whose stream ends without an exception and without an
    executable marker keeps the text as assistant content and returns
    what the completion check returns. *)
Lemma process_iteration_plain (a : TaskAgent) (iteration : Z) (w w0 : World)
    (s : Stream) :
  generate_tokens main_runner (prompt_manager a) w = (s, w0) ->
  failure s = None ->
  quiet_from (tool_processor a) [] (tokens s) = true ->
  process_iteration a iteration w
  = (Ok (of_completion
           (check_completion (keep_plain_text a (concat (tokens s))))),
     keep_plain_text a (concat (tokens s)), w0).
Proof.
  intros Hgen Hfail Hquiet.
  unfold process_iteration, generate_and_dispatch. rewrite Hgen.
  rewrite consume_tokens_quiet by exact Hquiet. rewrite Hfail.
  cbn [app].
  rewrite handle_generation_output_quiet
    by (apply (quiet_from_final _ _ []); [reflexivity | exact Hquiet]).
  cbn [negb andb]. unfold keep_plain_text.
  destruct (concat (tokens s)); reflexivity.
Qed.

End CompletionFacts.

(** ** Well-formed conversation logs *)

Section LogInvariant.


Lemma extend_content_monotone (text : str) :
  monotone_update (extend_content text).
Proof. intros m. cbn. auto. Qed.

Lemma mark_completed_monotone : monotone_update mark_completed.
Proof. intros m. cbn. auto. Qed.

Lemma lookup_alter_monotone (f : Message -> Message) (i j : nat)
    (msgs : list Message) (m' : Message) :
  monotone_update f ->
  alter f i msgs !! j = Some m' ->
  exists m, msgs !! j = Some m /\ role m' = role m /\ origin m' = origin m
            /\ (completed m = Some true -> completed m' = Some true).
Proof.
  intros Hf Hlook. destruct (decide (i = j)) as [-> | Hne].
  - rewrite list_lookup_alter_eq in Hlook.
    destruct (msgs !! j) as [m |]; [| discriminate].
    injection Hlook as <-. exists m. split; [reflexivity | apply Hf].
  - rewrite list_lookup_alter_ne in Hlook by exact Hne.
    exists m'. auto.
Qed.

Lemma log_wf_alter (f : Message -> Message) (i : nat) (msgs : list Message) :
  monotone_update f -> log_wf msgs -> log_wf (alter f i msgs).
Proof.
  intros Hf [Hopen Htool]. split.
  - intros a b ma mb Hlt Ha Hb Hra Hrb.
    apply (lookup_alter_monotone f) in Ha as (ma0 & Ha & Hr1 & _ & Hc1);
      [| exact Hf].
    apply (lookup_alter_monotone f) in Hb as (mb0 & Hb & Hr2 & _ & _);
      [| exact Hf].
    apply Hc1. apply (Hopen a b ma0 mb0); congruence.
  - intros k mk Hk Ho.
    apply (lookup_alter_monotone f) in Hk as (mk0 & Hk & Hr & Hor & _);
      [| exact Hf].
    destruct (Htool k mk0 Hk) as (Hu & (i0 & mi & Hlt & Hi & Hri & Hci) & Hall);
      [congruence |].
    split; [congruence |]. split.
    + destruct (decide (i = i0)) as [-> | Hne].
      * exists i0, (f mi). rewrite list_lookup_alter_eq, Hi.
        destruct (Hf mi) as (Hr' & _ & Hc'). cbn.
        repeat split; [exact Hlt | congruence | auto].
      * exists i0, mi. rewrite list_lookup_alter_ne by exact Hne. auto.
    + intros j mj Hlt' Hj Hrj.
      apply (lookup_alter_monotone f) in Hj as (mj0 & Hj & Hr1 & _ & Hc1);
        [| exact Hf].
      apply Hc1. apply (Hall j mj0); congruence.
Qed.

Lemma lookup_snoc_inv (msgs : list Message) (x m : Message) (i : nat) :
  (msgs ++ [x]) !! i = Some m ->
  ((i < length msgs)%nat /\ msgs !! i = Some m)
  \/ (i = length msgs /\ m = x).
Proof.
  intros Hlook. destruct (decide (i < length msgs)%nat) as [Hlt | Hge].
  - rewrite lookup_app_l in Hlook by exact Hlt. auto.
  - rewrite lookup_app_r in Hlook by lia.
    destruct (i - length msgs)%nat as [| n] eqn:Hd; cbn in Hlook;
      [| discriminate].
    injection Hlook as <-. right. split; [lia | reflexivity].
Qed.

(** Appending a user entry that is not a tool output. *)
Lemma log_wf_snoc_plain (msgs : list Message) (x : Message) :
  role x <> assistant -> origin x <> by_tool_output ->
  log_wf msgs -> log_wf (msgs ++ [x]).
Proof.
  intros Hrx Hox [Hopen Htool]. split.
  - intros a b ma mb Hlt Ha Hb Hra Hrb.
    apply lookup_snoc_inv in Ha as [[Hla Ha] | [-> ->]]; [| contradiction].
    apply lookup_snoc_inv in Hb as [[Hlb Hb] | [-> ->]]; [| contradiction].
    exact (Hopen a b ma mb Hlt Ha Hb Hra Hrb).
  - intros k mk Hk Ho.
    apply lookup_snoc_inv in Hk as [[Hlk Hk] | [-> ->]]; [| contradiction].
    destruct (Htool k mk Hk Ho) as (Hu & (i0 & mi & Hlt & Hi & Hri & Hci) & Hall).
    split; [exact Hu |]. split.
    + exists i0, mi. rewrite lookup_app_l by lia. auto.
    + intros j mj Hlt' Hj. rewrite lookup_app_l in Hj by lia.
      exact (Hall j mj Hlt' Hj).
Qed.

(** Opening a new assistant entry once every turn is closed. *)
Lemma log_wf_snoc_assistant (msgs : list Message) (x : Message) :
  origin x <> by_tool_output -> turns_closed msgs ->
  log_wf msgs -> log_wf (msgs ++ [x]).
Proof.
  intros Hox Hclosed [Hopen Htool]. split.
  - intros a b ma mb Hlt Ha Hb Hra Hrb.
    apply lookup_snoc_inv in Ha as [[Hla Ha] | [-> ->]].
    + exact (Hclosed a ma Ha Hra).
    + apply lookup_lt_Some in Hb. rewrite length_app in Hb. cbn in Hb. lia.
  - intros k mk Hk Ho.
    apply lookup_snoc_inv in Hk as [[Hlk Hk] | [-> ->]]; [| contradiction].
    destruct (Htool k mk Hk Ho) as (Hu & (i0 & mi & Hlt & Hi & Hri & Hci) & Hall).
    split; [exact Hu |]. split.
    + exists i0, mi. rewrite lookup_app_l by lia. auto.
    + intros j mj Hlt' Hj. rewrite lookup_app_l in Hj by lia.
      exact (Hall j mj Hlt' Hj).
Qed.

(** Appending a tool output once every turn is closed and there is one. *)
Lemma log_wf_snoc_tool_output (msgs : list Message) (x a : Message) :
  role x = user -> a ∈ msgs -> role a = assistant ->
  turns_closed msgs -> log_wf msgs -> log_wf (msgs ++ [x]).
Proof.
  intros Hrx Ha Hra Hclosed [Hopen Htool]. split.
  - intros i j mi mj Hlt Hi Hj Hri Hrj.
    apply lookup_snoc_inv in Hi as [[Hli Hi] | [-> ->]]; [| congruence].
    exact (Hclosed i mi Hi Hri).
  - intros k mk Hk Ho.
    apply lookup_snoc_inv in Hk as [[Hlk Hk] | [-> ->]].
    + destruct (Htool k mk Hk Ho)
        as (Hu & (i0 & mi & Hlt & Hi & Hri & Hci) & Hall).
      split; [exact Hu |]. split.
      * exists i0, mi. rewrite lookup_app_l by lia. auto.
      * intros j mj Hlt' Hj. rewrite lookup_app_l in Hj by lia.
        exact (Hall j mj Hlt' Hj).
    + split; [exact Hrx |]. split.
      * apply list_elem_of_lookup in Ha as [i Hi].
        exists i, a. rewrite lookup_app_l by (eapply lookup_lt_Some; eauto).
        repeat split; try assumption.
        -- eapply lookup_lt_Some; eauto.
        -- exact (Hclosed i a Hi Hra).
      * intros j mj Hlt' Hj. rewrite lookup_app_l in Hj by lia.
        exact (Hclosed j mj Hj).
Qed.

Lemma turns_closed_no_assistant (msgs : list Message) :
  Forall not_assistant msgs -> turns_closed msgs.
Proof.
  intros Hall j mj Hj Hr. rewrite Forall_lookup in Hall.
  destruct (Hall j mj Hj Hr).
Qed.

(** With the last assistant entry completed, every turn is closed. *)
Lemma turns_closed_split (before after : list Message) (m : Message) :
  one_open_turn (before ++ m :: after) ->
  role m = assistant -> Forall not_assistant after ->
  completed m = Some true ->
  turns_closed (before ++ m :: after).
Proof.
  intros Hopen Hm Hafter Hc j mj Hj Hr.
  destruct (Nat.lt_trichotomy j (length before)) as [Hlt | [-> | Hgt]].
  - apply (Hopen j (length before) mj m); try assumption.
    rewrite list_lookup_middle; reflexivity.
  - rewrite list_lookup_middle in Hj by reflexivity. congruence.
  - rewrite lookup_app_r in Hj by lia.
    destruct (j - length before)%nat as [| n] eqn:Hd; [lia |].
    cbn in Hj. rewrite Forall_lookup in Hafter.
    destruct (Hafter n mj Hj Hr).
Qed.

Lemma get_completed_true (m : Message) :
  get_completed m = true -> completed m = Some true.
Proof. unfold get_completed. destruct (completed m) as [[|] |]; cbn; congruence. Qed.

Lemma append_assistant_content_wf (msgs : list Message) (text : str) :
  log_wf msgs -> log_wf (append_assistant_content msgs text).
Proof.
  intros Hwf. unfold append_assistant_content.
  destruct (current_assistant msgs) as [[i m] |] eqn:Hcur.
  - destruct (get_completed m) eqn:Hc; cbn [negb].
    + apply log_wf_snoc_assistant; [discriminate | | exact Hwf].
      apply current_assistant_some in Hcur
        as (before & after & -> & _ & Hm & Hafter).
      apply turns_closed_split; try assumption; [apply Hwf |].
      apply get_completed_true. exact Hc.
    + apply log_wf_alter; [apply extend_content_monotone | exact Hwf].
  - apply log_wf_snoc_assistant; [discriminate | | exact Hwf].
    apply turns_closed_no_assistant, current_assistant_none. exact Hcur.
Qed.

Lemma complete_current_assistant_wf (msgs : list Message) :
  log_wf msgs -> log_wf (complete_current_assistant msgs).
Proof.
  intros Hwf. unfold complete_current_assistant.
  destruct (current_assistant msgs) as [[i m] |]; [| exact Hwf].
  destruct (get_completed m); cbn [negb]; [exact Hwf |].
  apply log_wf_alter; [apply mark_completed_monotone | exact Hwf].
Qed.

Lemma complete_current_assistant_closed (msgs : list Message) :
  log_wf msgs -> turns_closed (complete_current_assistant msgs).
Proof.
  intros Hwf. pose proof (complete_current_assistant_wf msgs Hwf) as Hwf'.
  revert Hwf'. unfold complete_current_assistant.
  destruct (current_assistant msgs) as [[i m] |] eqn:Hcur.
  - apply current_assistant_some in Hcur
      as (before & after & -> & <- & Hm & Hafter).
    destruct (get_completed m) eqn:Hc; cbn [negb]; intros Hwf'.
    + apply turns_closed_split; try assumption; [apply Hwf |].
      apply get_completed_true. exact Hc.
    + rewrite alter_middle in Hwf' |- *.
      apply turns_closed_split; try assumption; [apply Hwf' | reflexivity].
  - intros _. apply turns_closed_no_assistant, current_assistant_none.
    exact Hcur.
Qed.

Lemma append_assistant_content_has_assistant (msgs : list Message) (text : str) :
  exists a, a ∈ append_assistant_content msgs text /\ role a = assistant.
Proof.
  unfold append_assistant_content.
  destruct (current_assistant msgs) as [[i m] |] eqn:Hcur.
  - apply current_assistant_some in Hcur
      as (before & after & -> & <- & Hm & Hafter).
    destruct (get_completed m); cbn [negb].
    + exists (fresh_assistant text). split; [| reflexivity].
      apply elem_of_app. right. left.
    + rewrite alter_middle. exists (extend_content text m).
      split; [| exact Hm]. apply elem_of_app. right. left.
  - exists (fresh_assistant text). split; [| reflexivity].
    apply elem_of_app. right. left.
Qed.

Lemma complete_current_assistant_has_assistant (msgs : list Message) (a : Message) :
  a ∈ msgs -> role a = assistant ->
  exists a', a' ∈ complete_current_assistant msgs /\ role a' = assistant.
Proof.
  intros Ha Hr. unfold complete_current_assistant.
  destruct (current_assistant msgs) as [[i m] |] eqn:Hcur; [| eauto].
  destruct (get_completed m); cbn [negb]; [eauto |].
  apply current_assistant_some in Hcur
    as (before & after & -> & <- & Hm & Hafter).
  rewrite alter_middle. exists (mark_completed m).
  split; [| exact Hm]. apply elem_of_app. right. left.
Qed.

End LogInvariant.

(** ** The task agent: the log stays well formed *)

Section AgentInvariant.
Context `{External}.
Import PyStr.


Lemma new_prompt_manager_wf (system_content : str) :
  log_wf (new_prompt_manager system_content).
Proof.
  split.
  - intros i j mi mj Hlt Hi Hj.
    apply lookup_lt_Some in Hj. cbn in Hj. lia.
  - intros [| k] mk Hk Ho; cbn in Hk; [| discriminate].
    injection Hk as <-. discriminate.
Qed.

Lemma close_turn_then_tool_output_wf (msgs : list Message)
    (text tool_name out : str) :
  log_wf msgs ->
  log_wf (add_tool_output_as_user_message
            (complete_current_assistant (append_assistant_content msgs text))
            tool_name out).
Proof.
  intros Hwf.
  pose proof (append_assistant_content_wf msgs text Hwf) as Hwf1.
  destruct (append_assistant_content_has_assistant msgs text) as (a1 & Ha1 & Hr1).
  destruct (complete_current_assistant_has_assistant _ a1 Ha1 Hr1)
    as (a2 & Ha2 & Hr2).
  unfold add_tool_output_as_user_message.
  eapply log_wf_snoc_tool_output; [reflexivity | exact Ha2 | exact Hr2 | |].
  - apply complete_current_assistant_closed. exact Hwf1.
  - apply complete_current_assistant_wf. exact Hwf1.
Qed.

Lemma add_feedback_wf (msgs : list Message) (feedback : str) :
  log_wf msgs -> log_wf (add_feedback_as_user_message msgs feedback).
Proof. apply log_wf_snoc_plain; discriminate. Qed.

Lemma process_tool_call_wf (a : TaskAgent) (tc : ToolCall) (text : str)
    (w : World) :
  log_wf (prompt_manager a) ->
  log_wf (prompt_manager (process_tool_call a tc text w).1.2).
Proof.
  intros Hwf. unfold process_tool_call.
  pose proof (close_turn_then_tool_output_wf (prompt_manager a) text
                (call_name tc) (format_optional (output tc)) Hwf) as Hwf3.
  destruct (get_feedback _ w) as [[feedback | e] w1]; cbn.
  - apply add_feedback_wf. exact Hwf3.
  - exact Hwf3.
Qed.

Lemma handle_generation_output_wf (a : TaskAgent) (token_buffer : str)
    (iteration : Z) (w : World) :
  log_wf (prompt_manager a) ->
  log_wf (prompt_manager
            (handle_generation_output a token_buffer iteration w).1.2).
Proof.
  intros Hwf. unfold handle_generation_output.
  destruct (process_text (tool_processor a) token_buffer w)
    as [[[[[updated processed] call] | e] tp1] w1]; cbn; [| exact Hwf].
  destruct processed; [| exact Hwf].
  destruct call as [tc |]; [| exact Hwf].
  pose proof (process_tool_call_wf (with_tool_processor a tp1) tc
                token_buffer w1 Hwf) as Hwf'.
  destruct (process_tool_call (with_tool_processor a tp1) tc token_buffer w1)
    as [[[u | e] a2] w2]; exact Hwf'.
Qed.

Lemma handle_error_wf (a : TaskAgent) (error : str) (w : World) :
  log_wf (prompt_manager a) ->
  log_wf (prompt_manager (handle_error a error w).1.2).
Proof.
  intros Hwf. unfold handle_error.
  pose proof (complete_current_assistant_wf _
                (append_assistant_content_wf (prompt_manager a)
                   (LF ++ "Error during execution: " ++ error) Hwf)) as Hwf2.
  destruct (get_feedback _ w) as [[feedback | e] w1]; cbn; [| exact Hwf2].
  destruct (last _); cbn; apply add_feedback_wf; exact Hwf2.
Qed.

Lemma consume_tokens_wf (toks : list str) (token_buffer : str)
    (a : TaskAgent) (iteration : Z) (w : World) :
  log_wf (prompt_manager a) ->
  log_wf (prompt_manager (consume_tokens toks token_buffer a iteration w).1.2).
Proof.
  revert token_buffer a w.
  induction toks as [| token rest IH]; intros token_buffer a w Hwf;
    cbn [consume_tokens]; [exact Hwf |].
  pose proof (handle_generation_output_wf a (token_buffer ++ token)
                iteration w Hwf) as Hwf1.
  destruct (handle_generation_output a (token_buffer ++ token) iteration w)
    as [[[[processed buffer'] | e] a1] w1]; cbn in Hwf1 |- *;
    [| exact Hwf1].
  destruct processed; [exact Hwf1 | apply IH; exact Hwf1].
Qed.

Lemma generate_and_dispatch_wf (a : TaskAgent) (iteration : Z) (w : World) :
  log_wf (prompt_manager a) ->
  log_wf (prompt_manager (generate_and_dispatch a iteration w).1.2).
Proof.
  intros Hwf. unfold generate_and_dispatch.
  destruct (generate_tokens main_runner (prompt_manager a) w) as [s w0].
  pose proof (consume_tokens_wf (tokens s) [] a iteration w0 Hwf) as Hwf1.
  destruct (consume_tokens (tokens s) [] a iteration w0)
    as [[[[v | token_buffer] | e] a1] w1]; cbn in Hwf1 |- *;
    try exact Hwf1.
  destruct (failure s); [exact Hwf1 |].
  pose proof (handle_generation_output_wf a1 token_buffer iteration w1 Hwf1)
    as Hwf2.
  destruct (handle_generation_output a1 token_buffer iteration w1)
    as [[[[processed buffer'] | e] a2] w2]; cbn in Hwf2 |- *;
    [| exact Hwf2].
  destruct (negb processed && negb (bool_decide (buffer' = [])));
    [| exact Hwf2].
  cbn. apply append_assistant_content_wf. exact Hwf2.
Qed.

Lemma process_iteration_wf (a : TaskAgent) (iteration : Z) (w : World) :
  log_wf (prompt_manager a) ->
  log_wf (prompt_manager (process_iteration a iteration w).1.2).
Proof.
  intros Hwf. unfold process_iteration.
  pose proof (generate_and_dispatch_wf a iteration w Hwf) as Hwf1.
  destruct (generate_and_dispatch a iteration w) as [[[v | e] a1] w1];
    cbn in Hwf1 |- *; [exact Hwf1 |].
  apply handle_error_wf. exact Hwf1.
Qed.

Lemma run_loop_wf (budget : nat) (iteration : Z) (a : TaskAgent) (w : World) :
  log_wf (prompt_manager a) ->
  log_wf (prompt_manager (run_loop budget iteration a w).1.2).
Proof.
  revert iteration a w.
  induction budget as [| budget IH]; intros iteration a w Hwf;
    cbn [run_loop].
  - pose proof (complete_current_assistant_wf _
                  (append_assistant_content_wf (prompt_manager a)
                     MAX_ITERATIONS_MESSAGE Hwf)) as Hwf2.
    destruct (last _); exact Hwf2.
  - pose proof (process_iteration_wf a (iteration + 1) w Hwf) as Hwf1.
    destruct (process_iteration a (iteration + 1) w)
      as [[[v | e] a1] w1]; cbn in Hwf1 |- *; [| exact Hwf1].
    destruct v; [apply IH; exact Hwf1 | exact Hwf1 | exact Hwf1].
Qed.

Lemma run_wf (a : TaskAgent) (w : World) :
  log_wf (prompt_manager a) -> log_wf (prompt_manager (run a w).1.2).
Proof.
  intros Hwf. unfold run.
  destruct (prompt_manager a !! 1%nat); [| exact Hwf].
  apply run_loop_wf. exact Hwf.
Qed.

(** C8, as the code has it.  In every log the agent's operations can
    produce, at most one assistant entry is open, and it is the last
    entry of role assistant: an assistant entry that another assistant
    entry follows is completed.  User messages may stand behind the open
    entry, which need not be the final entry of the log.  Every
    tool-output user message comes after at least one assistant entry,
    all the assistant entries before it being completed. *)
Theorem reachable_log_wf (a : TaskAgent) :
  reachable a ->
  (forall (i j : nat) mi mj,
      prompt_manager a !! i = Some mi -> prompt_manager a !! j = Some mj ->
      role mi = assistant -> role mj = assistant ->
      get_completed mi = false -> get_completed mj = false -> i = j)
  /\ (forall (i j : nat) mi mj,
        (i < j)%nat ->
        prompt_manager a !! i = Some mi -> prompt_manager a !! j = Some mj ->
        role mi = assistant -> role mj = assistant ->
        completed mi = Some true)
  /\ (forall (k : nat) mk,
        prompt_manager a !! k = Some mk -> origin mk = by_tool_output ->
        role mk = user
        /\ (exists i mi, (i < k)%nat /\ prompt_manager a !! i = Some mi
                         /\ role mi = assistant /\ completed mi = Some true)
        /\ (forall j mj, (j < k)%nat -> prompt_manager a !! j = Some mj ->
                         role mj = assistant -> completed mj = Some true)).
Proof.
  intros Hreach.
  assert (Hwf : log_wf (prompt_manager a)).
  { induction Hreach.
    - apply new_prompt_manager_wf.
    - cbn. apply log_wf_snoc_plain; [discriminate | discriminate | assumption].
    - apply process_tool_call_wf. assumption.
    - apply handle_generation_output_wf. assumption.
    - apply handle_error_wf. assumption.
    - apply process_iteration_wf. assumption.
    - apply run_wf. assumption. }
  destruct Hwf as [Hopen Htool]. split; [| split; assumption].
  intros i j mi mj Hi Hj Hri Hrj Hci Hcj.
  destruct (Nat.lt_trichotomy i j) as [Hlt | [-> | Hgt]]; [| reflexivity |].
  - pose proof (Hopen i j mi mj Hlt Hi Hj Hri Hrj) as Hc.
    unfold get_completed in Hci. rewrite Hc in Hci. discriminate.
  - pose proof (Hopen j i mj mi Hgt Hj Hi Hrj Hri) as Hc.
    unfold get_completed in Hcj. rewrite Hc in Hcj. discriminate.
Qed.

End AgentInvariant.

(** ** The task agent: a tool turn *)

Section ToolTurn.
Context `{External}.
Import PyStr.

Lemma current_assistant_snoc_user (msgs : list Message) (x : Message) :
  role x <> assistant ->
  current_assistant (msgs ++ [x]) = current_assistant msgs.
Proof.
  intros Hx. induction msgs as [| y msgs IH]; cbn [app current_assistant].
  - unfold is_assistant. rewrite bool_decide_eq_false_2 by exact Hx.
    reflexivity.
  - rewrite IH. reflexivity.
Qed.

(** Appending text and completing the turn, entry by entry. *)
Lemma close_turn_spec (msgs : list Message) (text : str) :
  exists before after m,
    complete_current_assistant (append_assistant_content msgs text)
    = before ++ m :: after
    /\ role m = assistant /\ completed m = Some true
    /\ Forall not_assistant after
    /\ match current_assistant msgs with
       | Some (i, m0) =>
           if get_completed m0 then
             before = msgs /\ after = [] /\ content m = text
           else
             msgs = before ++ m0 :: after /\ i = length before
             /\ content m = content m0 ++ text
       | None => before = msgs /\ after = [] /\ content m = text
       end.
Proof.
  assert (Hfresh :
    complete_current_assistant (msgs ++ [fresh_assistant text])
    = msgs ++ [mark_completed (fresh_assistant text)]).
  { unfold complete_current_assistant.
    rewrite (current_assistant_split msgs [] (fresh_assistant text))
      by (reflexivity || constructor).
    cbn [negb get_completed fresh_assistant completed default].
    apply alter_middle. }
  unfold append_assistant_content.
  destruct (current_assistant msgs) as [[i m0] |] eqn:Hcur.
  - destruct (get_completed m0) eqn:Hc; cbn [negb].
    + rewrite Hfresh. exists msgs, [], (mark_completed (fresh_assistant text)).
      repeat split; constructor.
    + apply current_assistant_some in Hcur
        as (before & after & -> & <- & Hm & Hafter).
      rewrite alter_middle. unfold complete_current_assistant.
      rewrite (current_assistant_split before after (extend_content text m0))
        by assumption.
      replace (get_completed (extend_content text m0)) with false
        by (symmetry; exact Hc).
      cbn [negb]. rewrite alter_middle.
      exists before, after, (mark_completed (extend_content text m0)).
      repeat split; assumption.
  - rewrite Hfresh. exists msgs, [], (mark_completed (fresh_assistant text)).
    repeat split; constructor.
Qed.

(** C3, as the code has it.  When a marker of the buffer is run, the
    assistant entry of the turn receives the buffer as it stood, without
    the tool output: it is completed, and the user message
    [<name> output:\n<<< result >>>] is appended after it, then the
    critic's answer. *)
Theorem tool_turn_records_buffer (a : TaskAgent) (token_buffer : str)
    (iteration : Z) (w : World) (tc : ToolCall) (others : list ToolCall) :
  find_unexecuted_tool_calls (tool_processor a) token_buffer = tc :: others ->
  exists (result : str) (w1 : World) (m : Message),
    (execute_tool (tool_processor a) tc w).1.1
      = Ok ("<<< " ++ result ++ " >>>")
    /\ (execute_tool (tool_processor a) tc w).2 = w1
    /\ last (assistant_msgs
               (complete_current_assistant
                  (append_assistant_content (prompt_manager a) token_buffer)))
       = Some m
    /\ completed m = Some true
    /\ content m =
         match last (assistant_msgs (prompt_manager a)) with
         | Some m0 =>
             if get_completed m0 then token_buffer
             else content m0 ++ token_buffer
         | None => token_buffer
         end
    /\ let log3 :=
         complete_current_assistant
           (append_assistant_content (prompt_manager a) token_buffer)
         ++ [ {| role := user;
                 content := call_name tc ++ " output:" ++ LF
                              ++ "<<< " ++ result ++ " >>>";
                 completed := None; origin := by_tool_output |} ] in
       match get_feedback log3 w1 with
       | (Ok feedback, w2) =>
           exists a',
             handle_generation_output a token_buffer iteration w
             = (Ok (true, []), a', w2)
             /\ prompt_manager a'
                = log3 ++ [ {| role := user; content := feedback;
                               completed := None; origin := by_feedback |} ]
       | (Raise e, w2) =>
           exists a',
             handle_generation_output a token_buffer iteration w
             = (Raise e, a', w2)
             /\ prompt_manager a' = log3
       end.
Proof.
  intros Hfind.
  destruct (process_text_runs_head (tool_processor a) token_buffer w
              tc others Hfind)
    as (result & tp1 & w1 & Hexec & _ & tp2 & Hpt & _).
  exists result, w1.
  destruct (close_turn_spec (prompt_manager a) token_buffer)
    as (before & after & m & Hturn & Hm & Hc & Hafter & Hcontent).
  exists m. rewrite Hexec. cbn [fst snd].
  split; [reflexivity |]. split; [reflexivity |].
  split.
  { rewrite Hturn, last_assistant_msgs, current_assistant_split by assumption.
    reflexivity. }
  split; [exact Hc |].
  split.
  { rewrite last_assistant_msgs.
    destruct (current_assistant (prompt_manager a)) as [[i m0] |]; cbn.
    - destruct (get_completed m0); tauto.
    - tauto. }
  cbn zeta. unfold handle_generation_output. rewrite Hpt.
  unfold process_tool_call. cbn [prompt_manager with_tool_processor].
  unfold add_tool_output_as_user_message, TOOL_OUTPUT_PREFIX.
  cbn [call_name executed_call output format_optional].
  rewrite <- !app_assoc.
  destruct (get_feedback _ w1) as [[feedback | e] w2];
    eexists; (split; [reflexivity | reflexivity]).
Qed.

End ToolTurn.

(** ** The task agent: the iteration cap *)

Section IterationCap.
Context `{External}.
Import PyStr.

Lemma handle_generation_output_log (a a1 : TaskAgent) (token_buffer b' : str)
    (iteration : Z) (w w1 : World) (processed : bool) :
  handle_generation_output a token_buffer iteration w
  = (Ok (processed, b'), a1, w1) ->
  if processed then
    exists i m, current_assistant (prompt_manager a1) = Some (i, m)
                /\ get_completed m = true
  else prompt_manager a1 = prompt_manager a.
Proof.
  unfold handle_generation_output.
  destruct (process_text (tool_processor a) token_buffer w)
    as [[[[[updated flag] call] | e] tp1] w0]; [| discriminate].
  assert (Hkeep : (Ok (false, token_buffer), with_tool_processor a tp1, w0)
                  = (Ok (processed, b'), a1, w1) ->
                  if processed then
                    exists i m, current_assistant (prompt_manager a1) = Some (i, m)
                                /\ get_completed m = true
                  else prompt_manager a1 = prompt_manager a)
    by (intros [= <- <- <- <-]; reflexivity).
  destruct flag; [| exact Hkeep]. destruct call as [tc |]; [| exact Hkeep].
  clear Hkeep. unfold process_tool_call.
  cbn [prompt_manager with_tool_processor].
  destruct (close_turn_spec (prompt_manager a) token_buffer)
    as (before & after & m & -> & Hm & Hc & Hafter & _).
  destruct (get_feedback _ w0) as [[feedback | e] w2]; [| discriminate].
  intros [= <- <- <- <-]. cbn [prompt_manager with_prompt_manager].
  unfold add_feedback_as_user_message, add_tool_output_as_user_message.
  rewrite !current_assistant_snoc_user by discriminate.
  rewrite current_assistant_split by assumption.
  exists (length before), m. split; [reflexivity |].
  unfold get_completed. rewrite Hc. reflexivity.
Qed.

Lemma consume_tokens_exhausted_log (toks : list str) (token_buffer b' : str)
    (a a1 : TaskAgent) (iteration : Z) (w w1 : World) :
  consume_tokens toks token_buffer a iteration w
  = (Ok (Exhausted b'), a1, w1) ->
  prompt_manager a1 = prompt_manager a.
Proof.
  revert token_buffer a w.
  induction toks as [| token rest IH]; intros token_buffer a w;
    cbn [consume_tokens].
  - intros [= _ <- _]. reflexivity.
  - destruct (handle_generation_output a (token_buffer ++ token) iteration w)
      as [[[[processed b0] | e] a0] w0] eqn:Hgo; [| discriminate].
    destruct processed; [discriminate |].
    apply handle_generation_output_log in Hgo. intros Hrest.
    apply IH in Hrest. congruence.
Qed.

Lemma append_assistant_content_open_last (msgs : list Message) (text : str) :
  open_turn_is_last msgs ->
  open_turn_is_last (append_assistant_content msgs text).
Proof.
  intros Hlast j mj. unfold append_assistant_content.
  assert (Hfresh :
    current_assistant (msgs ++ [fresh_assistant text]) = Some (j, mj) ->
    get_completed mj = false -> S j = length (msgs ++ [fresh_assistant text])).
  { rewrite (current_assistant_split msgs [] (fresh_assistant text))
      by (reflexivity || constructor).
    intros [= <- <-] _. rewrite length_app. cbn. lia. }
  destruct (current_assistant msgs) as [[i m0] |] eqn:Hcur; [| exact Hfresh].
  destruct (get_completed m0) eqn:Hc; cbn [negb]; [exact Hfresh |].
  specialize (Hlast i m0 Hcur Hc).
  apply current_assistant_some in Hcur
    as (before & after & -> & <- & Hm & Hafter).
  rewrite alter_middle.
  rewrite (current_assistant_split before after (extend_content text m0))
    by assumption.
  intros [= <- <-] _. rewrite !length_app in *. cbn [length] in *. lia.
Qed.

Lemma process_iteration_none_open_last (a a1 : TaskAgent) (iteration : Z)
    (w w1 : World) :
  process_iteration a iteration w = (Ok PyNone, a1, w1) ->
  open_turn_is_last (prompt_manager a) ->
  open_turn_is_last (prompt_manager a1).
Proof.
  unfold process_iteration.
  destruct (generate_and_dispatch a iteration w) as [[[v | e] a0] w0] eqn:Hgd.
  - intros [= -> <- <-]. revert Hgd. unfold generate_and_dispatch.
    destruct (generate_tokens main_runner (prompt_manager a) w) as [s w2].
    destruct (consume_tokens (tokens s) [] a iteration w2)
      as [[[[v0 | token_buffer] | e] a2] w3] eqn:Hconsume;
      [| | discriminate].
    + intros [= -> <- <-] Hlast. exfalso.
      clear -Hconsume. revert Hconsume. generalize (@nil char) as b.
      revert a w2. induction (tokens s) as [| token rest IH];
        intros a w2 b; cbn [consume_tokens]; [discriminate |].
      destruct (handle_generation_output a (b ++ token) iteration w2)
        as [[[[processed b'] | e] a3] w4]; [| discriminate].
      destruct processed; [discriminate | apply IH].
    + apply consume_tokens_exhausted_log in Hconsume.
      destruct (failure s); [discriminate |].
      destruct (handle_generation_output a2 token_buffer iteration w3)
        as [[[[processed b'] | e] a3] w4] eqn:Hgo; [| discriminate].
      apply handle_generation_output_log in Hgo.
      intros [= _ <- <-] Hlast. destruct processed; cbn [negb andb].
      * destruct Hgo as (i & m & Hcur & Hc). intros j mj Hj Hopen.
        rewrite Hcur in Hj. injection Hj as <- <-. congruence.
      * destruct (negb (bool_decide (b' = []))).
        -- cbn [prompt_manager with_prompt_manager].
           apply append_assistant_content_open_last.
           rewrite Hgo, Hconsume. exact Hlast.
        -- rewrite Hgo, Hconsume. exact Hlast.
  - unfold handle_error.
    destruct (get_feedback _ w0) as [[feedback | e'] w2]; [| discriminate].
    destruct (last _); discriminate.
Qed.

Lemma passes_then_cap (budget : nat) (iteration : Z) (a a1 : TaskAgent)
    (w w1 : World) :
  passes_without_completion budget iteration a w = Some (a1, w1) ->
  open_turn_is_last (prompt_manager a) ->
  open_turn_is_last (prompt_manager a1)
  /\ run_loop budget iteration a w
     = run_loop 0 (iteration + Z.of_nat budget) a1 w1.
Proof.
  revert iteration a w.
  induction budget as [| budget IH]; intros iteration a w;
    cbn [passes_without_completion].
  - intros [= <- <-] Hlast. split; [exact Hlast |].
    rewrite Z.add_0_r. reflexivity.
  - cbn [run_loop].
    destruct (process_iteration a (iteration + 1) w)
      as [[[[| | result] | e] a0] w0] eqn:Hiter; try discriminate.
    intros Hrest Hlast.
    apply process_iteration_none_open_last in Hiter; [| exact Hlast].
    destruct (IH _ _ _ Hrest Hiter) as [Hlast1 ->].
    split; [exact Hlast1 |].
    replace (iteration + Z.of_nat (S budget))
      with (iteration + 1 + Z.of_nat budget) by lia.
    reflexivity.
Qed.

(** At the cap the notice lands in the final entry of the log. *)
Lemma cap_closes_last_entry (msgs : list Message) :
  open_turn_is_last msgs ->
  exists init m earlier,
    complete_current_assistant
      (append_assistant_content msgs MAX_ITERATIONS_MESSAGE) = init ++ [m]
    /\ role m = assistant /\ completed m = Some true
    /\ content m = earlier ++ MAX_ITERATIONS_MESSAGE.
Proof.
  intros Hlast.
  destruct (close_turn_spec msgs MAX_ITERATIONS_MESSAGE)
    as (before & after & m & Hturn & Hm & Hc & Hafter & Hcase).
  destruct (current_assistant msgs) as [[i m0] |] eqn:Hcur.
  - destruct (get_completed m0) eqn:Hc0.
    + destruct Hcase as (-> & -> & Hcontent).
      exists msgs, m, []. auto.
    + destruct Hcase as (Hmsgs & Hi & Hcontent).
      specialize (Hlast i m0 Hcur Hc0).
      rewrite Hmsgs, Hi, length_app in Hlast. cbn [length] in Hlast.
      destruct after; [| cbn [length] in Hlast; lia].
      exists before, m, (content m0). auto.
  - destruct Hcase as (-> & -> & Hcontent).
    exists msgs, m, []. auto.
Qed.

(** X21. The iteration cap.  On an agent whose log has its instruction
    and whose open assistant entry, if there is one, is the final entry of
    the log, when every pass that [max_iterations] allows returns [None],
    [run] makes exactly that many passes, appends the notice to the
    current assistant entry, which is or becomes the final entry of the
    log, completes it and returns its content. *)
Theorem cap_notice_closes_run (a a1 : TaskAgent) (w w1 : World) :
  0 <= max_iterations a ->
  is_Some (prompt_manager a !! 1%nat) ->
  open_turn_is_last (prompt_manager a) ->
  passes_without_completion (Z.to_nat (max_iterations a)) 0 a w
  = Some (a1, w1) ->
  exists (init : list Message) (m : Message) (earlier : str),
    run a w = (Ok (PyStr (content m)), max_iterations a,
               with_prompt_manager a1 (init ++ [m]), w1)
    /\ complete_current_assistant
         (append_assistant_content (prompt_manager a1) MAX_ITERATIONS_MESSAGE)
       = init ++ [m]
    /\ role m = assistant /\ completed m = Some true
    /\ content m = earlier ++ MAX_ITERATIONS_MESSAGE.
Proof.
  intros Hpos [x Hx] Hfresh Hpasses.
  destruct (passes_then_cap _ _ _ _ _ _ Hpasses Hfresh) as [Hlast Hcap].
  destruct (cap_closes_last_entry _ Hlast)
    as (init & m & earlier & Hturn & Hm & Hc & Hcontent).
  exists init, m, earlier.
  split; [| split; [exact Hturn | auto]].
  unfold run. rewrite Hx, Hcap. cbn [run_loop].
  rewrite Hturn, last_snoc.
  replace (0 + Z.of_nat (Z.to_nat (max_iterations a)))
    with (max_iterations a) by lia.
  reflexivity.
Qed.

End IterationCap.

(** ** The scenarios of the specification, and the inputs on which the code
    and the specification part *)

Section Scenarios.
Import PyStr Scenario.
#[local] Existing Instance scripted.


(** Scenario 2, the completion signal. *)
Example completion_signal :
  (run (agent 10)
     {| main_script := [says "all done [task_complete] 42"];
        critic_script := [] |}).1.1
  = (Ok (PyStr "42"), 1).
Proof. vm_compute. reflexivity. Qed.

(** Scenario 3, the empty completion. *)
Example empty_completion :
  (run (agent 10)
     {| main_script := [says "[task_complete]"]; critic_script := [] |}).1.1
  = (Ok (PyStr "Task completed successfully"), 1).
Proof. vm_compute. reflexivity. Qed.

(** Scenario 4, the unknown tool. *)
Example unknown_tool :
  (execute_tool (tool_processor (agent 10))
     {| call_id := "tool_0"; call_name := "frobnicate"; call_content := "x";
        start_pos := 0; end_pos := 19; output := None; executed := false |}
     {| main_script := []; critic_script := [] |}).1.1
  = Ok ("<<< Error: Function frobnicate not found >>>" : str).
Proof. vm_compute. reflexivity. Qed.

(** Scenario 6, the iteration cap. *)
Example iteration_cap :
  (run (agent 1)
     {| main_script := [says "thinking"]; critic_script := [] |}).1.1
  = (Ok (PyStr ("thinking" ++ LF ++ "Maximum iterations reached")), 1).
Proof. vm_compute. reflexivity. Qed.


(** C3 fails as stated: after the iteration, the assistant entry holds the
    buffer alone; the tool output is in the user message only. *)
Lemma single_shell_call_turn_lacks_output :
  prompt_manager (process_iteration (agent 10) 1 single_shell_call).1.2
  = [ entry system "Available tools: shell" None by_init;
      entry user "greet me" None by_instruction;
      entry assistant "okay [shell]|||echo hi||| done" (Some true)
        by_assistant;
      entry user ("shell output:" ++ LF ++ "<<< hi >>>") None by_tool_output;
      entry user "go on" None by_feedback ]
  /\ ~ (exists m,
          m ∈ prompt_manager
                (process_iteration (agent 10) 1 single_shell_call).1.2
          /\ role m = assistant
          /\ content m = "okay [shell]|||echo hi||| done" ++ LF
                           ++ "shell output:" ++ LF ++ "<<< hi >>>").
Proof.
  assert (Hlog :
    prompt_manager (process_iteration (agent 10) 1 single_shell_call).1.2
    = [ entry system "Available tools: shell" None by_init;
        entry user "greet me" None by_instruction;
        entry assistant "okay [shell]|||echo hi||| done" (Some true)
          by_assistant;
        entry user ("shell output:" ++ LF ++ "<<< hi >>>") None by_tool_output;
        entry user "go on" None by_feedback ])
    by (vm_compute; reflexivity).
  split; [exact Hlog |]. rewrite Hlog. intros (m & Hin & Hrole & Hcontent).
  apply (f_equal length) in Hcontent.
  repeat (apply elem_of_cons in Hin as [-> | Hin];
          [first [discriminate Hrole | vm_compute in Hcontent; discriminate] |]).
  inversion Hin.
Qed.

Lemma tool_turn_records_buffer_witness :
  exists result m,
    (execute_tool (tool_processor (agent 10))
       (call_of_match {| Re.m_start := 5; Re.m_end := 25;
                         Re.group1 := "shell"; Re.group2 := "echo hi" |})
       single_shell_call).1.1 = Ok ("<<< " ++ result ++ " >>>")
    /\ last (assistant_msgs
               (complete_current_assistant
                  (append_assistant_content (prompt_manager (agent 10))
                     "okay [shell]|||echo hi||| done"))) = Some m
    /\ completed m = Some true
    /\ content m = "okay [shell]|||echo hi||| done".
Proof.
  destruct (tool_turn_records_buffer (agent 10)
              "okay [shell]|||echo hi||| done" 1 single_shell_call
              (call_of_match {| Re.m_start := 5; Re.m_end := 25;
                                Re.group1 := "shell";
                                Re.group2 := "echo hi" |})
              [] ltac:(vm_compute; reflexivity))
    as (result & w1 & m & Hexec & _ & Hlast & Hc & Hcontent & _).
  exists result, m. auto.
Defined.

(** C9 fails as stated: with a user message after an open assistant
    entry, the text goes into that earlier entry and no entry is added. *)
Lemma append_after_user_extends_earlier_turn :
  let log :=
    add_user_instruction
      (append_assistant_content (new_prompt_manager "rules") "draft")
      "and then?" in
  last log = Some (entry user "and then?" None by_instruction)
  /\ append_assistant_content log " more"
     = [ entry system "rules" None by_init;
         entry assistant "draft more" (Some false) by_assistant;
         entry user "and then?" None by_instruction ]
  /\ append_assistant_content log " more"
     <> log ++ [fresh_assistant " more"].
Proof.
  cbv zeta. split; [reflexivity |]. split; [reflexivity |].
  intros Heq. apply (f_equal length) in Heq. vm_compute in Heq.
  discriminate.
Qed.

(** C4 at a failing input: the main model fails on the first pass, and
    the critic fails while [handle_error] consults it about that error;
    nothing catches the second exception and [run] raises it instead of
    returning.  The same failure of the critic, when it is consulted about
    a tool output, happens inside the [try] of [process_iteration]: it is
    caught and handled, and [run] returns. *)
Theorem run_raises_when_critic_fails :
  let w := {| main_script := [fails "connection refused"];
              critic_script := [fails "critic unavailable"] |} in
  let w' := {| main_script := [says "[shell]|||echo hi|||"];
               critic_script := [fails "critic unavailable";
                                 says "try again"] |} in
  (run (agent 3) w).1.1 = (Raise "critic unavailable", 1)
  /\ ~ (exists v, (run (agent 3) w).1.1.1 = Ok v)
  /\ (run (agent 3) w').1.1 = (Ok (PyStr "try again"), 1)
  /\ prompt_manager (run (agent 3) w').1.2
     = [ entry system "Available tools: shell" None by_init;
         entry user "greet me" None by_instruction;
         entry assistant "[shell]|||echo hi|||" (Some true) by_assistant;
         entry user ("shell output:" ++ LF ++ "<<< hi >>>") None
           by_tool_output;
         entry assistant (LF ++ "Error during execution: critic unavailable")
           (Some true) by_assistant;
         entry user "try again" None by_feedback ].
Proof.
  cbv zeta.
  assert (Hrun :
    (run (agent 3)
       {| main_script := [fails "connection refused"];
          critic_script := [fails "critic unavailable"] |}).1.1
    = (Raise "critic unavailable", 1)) by (vm_compute; reflexivity).
  split; [exact Hrun |]. split.
  - rewrite Hrun. intros [v Hv]. discriminate.
  - split; vm_compute; reflexivity.
Qed.

(** C2 at a failing input: the main model fails on the first pass of a
    run allowed ten; the run ends there with the critic's answer, and the
    stream scripted for a second pass is never asked for. *)
Theorem generation_error_ends_run :
  let w := {| main_script := [fails "connection refused";
                              says "[task_complete] recovered"];
              critic_script := [says "try again"] |} in
  (run (agent 10) w).1.1 = (Ok (PyStr "try again"), 1)
  /\ main_script (run (agent 10) w).2 = [says "[task_complete] recovered"]
  /\ prompt_manager (run (agent 10) w).1.2
     = [ entry system "Available tools: shell" None by_init;
         entry user "greet me" None by_instruction;
         entry assistant (LF ++ "Error during execution: connection refused")
           (Some true) by_assistant;
         entry user "try again" None by_feedback ].
Proof. vm_compute. repeat split; reflexivity. Qed.

(** C1 at a failing input: in one iteration a marker at offset 0 runs and
    the buffer is reset; the marker that arrives at offset 0 of the fresh
    buffer in the next iteration is taken for the executed one and never
    runs: its text is kept as plain assistant content. *)
Theorem same_offset_marker_skipped_after_reset :
  let w := {| main_script := [says "[shell]|||echo one|||";
                              says "[shell]|||echo two|||"];
              critic_script := [says "go on"] |} in
  let first := process_iteration (agent 10) 1 w in
  let second := process_iteration first.1.2 2 first.2 in
  first.1.1 = Ok PyFalse
  /\ calls_logged (tool_processor first.1.2) = [("shell" : str, "tool_0" : str)]
  /\ Re.finditer "[shell]|||echo two|||"
     = [ {| Re.m_start := 0; Re.m_end := 21;
            Re.group1 := "shell"; Re.group2 := "echo two" |} ]
  /\ find_unexecuted_tool_calls (tool_processor first.1.2)
       "[shell]|||echo two|||" = []
  /\ (handle_generation_output first.1.2 "[shell]|||echo two|||" 2 first.2).1.1
     = Ok (false, "[shell]|||echo two|||" : str)
  /\ second.1.1 = Ok PyNone
  /\ calls_logged (tool_processor second.1.2)
     = [("shell" : str, "tool_0" : str)]
  /\ prompt_manager second.1.2
     = [ entry system "Available tools: shell" None by_init;
         entry user "greet me" None by_instruction;
         entry assistant "[shell]|||echo one|||" (Some true) by_assistant;
         entry user ("shell output:" ++ LF ++ "<<< one >>>") None
           by_tool_output;
         entry user "go on" None by_feedback;
         entry assistant "[shell]|||echo two|||" (Some false) by_assistant ].
Proof. vm_compute. repeat split; reflexivity. Qed.

(** C7 at a failing input: the latest assistant entry is the capital I
    with a dot above, U+0130, followed by the sentinel and [result].
    [lower] writes two characters for U+0130, so the sentinel stands at
    offset 2 of the lowered copy and at offset 1 of the content; the cut is
    made in the content at the offset found in the copy, and the first
    character of the text after the sentinel is lost. *)
Theorem dotted_capital_shifts_completion_result :
  let text : str := Beyond 48 :: "[task_complete]result" in
  text = [Beyond 48] ++ TASK_COMPLETE_TAG ++ "result"
  /\ lower text = Latin "i" :: Beyond 519 :: "[task_complete]result"
  /\ find TASK_COMPLETE_TAG (lower text) = 2
  /\ check_completion (keep_plain_text (agent 10) text)
     = Some ("esult" : str)
  /\ (run (agent 10)
        {| main_script := [says text]; critic_script := [] |}).1.1
     = (Ok (PyStr "esult"), 1).
Proof. vm_compute. repeat split; reflexivity. Qed.

(** C10 at a failing input: two sentinels, and two U+0130 before the
    first.  The leftmost sentinel stands at offset 8 of the content and at
    offset 10 of its lowered copy; the result is cut two characters too
    far and is not the text after the leftmost sentinel. *)
Theorem dotted_capitals_cut_into_later_text :
  let text : str :=
    "done " ++ [Beyond 48; Beyond 48]
      ++ " [task_complete] first [TASK_COMPLETE] second " in
  text = ("done " ++ [Beyond 48; Beyond 48] ++ " ") ++ TASK_COMPLETE_TAG
           ++ " first [TASK_COMPLETE] second "
  /\ length ("done " ++ [Beyond 48; Beyond 48] ++ " " : str) = 8%nat
  /\ find TASK_COMPLETE_TAG (lower text) = 10
  /\ check_completion (keep_plain_text (agent 10) text)
     = Some ("irst [TASK_COMPLETE] second" : str)
  /\ check_completion (keep_plain_text (agent 10) text)
     <> Some (strip " first [TASK_COMPLETE] second ").
Proof.
  cbv zeta.
  assert (Hcheck :
    check_completion
      (keep_plain_text (agent 10)
         ("done " ++ [Beyond 48; Beyond 48]
            ++ " [task_complete] first [TASK_COMPLETE] second "))
    = Some ("irst [TASK_COMPLETE] second" : str)) by (vm_compute; reflexivity).
  split; [reflexivity |]. split; [reflexivity |].
  split; [vm_compute; reflexivity |]. split; [exact Hcheck |].
  rewrite Hcheck. vm_compute. discriminate.
Qed.

(** C8 fails as stated: a pass of the loop that neither runs a tool nor
    completes leaves its assistant entry open, and a user message added
    then stands behind it; the open entry is no longer the trailing entry
    of the log. *)
Lemma open_turn_before_user_message :
  let a :=
    add_user_message
      (process_iteration (agent 10) 1
         {| main_script := [says "thinking"]; critic_script := [] |}).1.2
      "and then?" in
  reachable a
  /\ prompt_manager a
     = [ entry system "Available tools: shell" None by_init;
         entry user "greet me" None by_instruction;
         entry assistant "thinking" (Some false) by_assistant;
         entry user "and then?" None by_instruction ]
  /\ exists (i : nat) (m : Message),
       prompt_manager a !! i = Some m
       /\ role m = assistant /\ completed m = Some false
       /\ (S i < length (prompt_manager a))%nat.
Proof.
  cbv zeta. split.
  - apply reach_add_user_message, reach_process_iteration. unfold agent.
    apply reach_add_user_message, reach_new.
  - split; [vm_compute; reflexivity |].
    exists 2%nat, (entry assistant "thinking" (Some false) by_assistant).
    vm_compute. repeat split; lia.
Qed.

Lemma reachable_log_wf_witness :
  reachable (process_iteration (agent 10) 1 single_shell_call).1.2
  /\ forall (k : nat) mk,
       prompt_manager (process_iteration (agent 10) 1 single_shell_call).1.2
         !! k = Some mk ->
       origin mk = by_tool_output ->
       exists i mi,
         (i < k)%nat
         /\ prompt_manager
              (process_iteration (agent 10) 1 single_shell_call).1.2
              !! i = Some mi
         /\ role mi = assistant /\ completed mi = Some true.
Proof.
  assert (Hreach :
    reachable (process_iteration (agent 10) 1 single_shell_call).1.2).
  { apply reach_process_iteration. unfold agent.
    apply reach_add_user_message. apply reach_new. }
  split; [exact Hreach |]. intros k mk Hk Ho.
  destruct (reachable_log_wf _ Hreach) as (_ & _ & Htool).
  destruct (Htool k mk Hk Ho) as (_ & Hex & _). exact Hex.
Defined.

End Scenarios.

(** * Further properties *)

(** ** The scanner, continued *)

Section ScannerMore.
Context `{External}.
Import PyStr Re.

Lemma match_here_not_bracket (c : char) (s : str) :
  c <> (Latin "[") -> match_here (c :: s) = None.
Proof.
  intros Hc. unfold match_here.
  rewrite bool_decide_eq_false_2 by exact Hc. reflexivity.
Qed.

Lemma finditer_from_no_bracket (s : str) (pos : nat) :
  Forall (fun c => c <> (Latin "[")) s -> finditer_from pos 0 s = [].
Proof.
  intros Hs. revert pos.
  induction Hs as [| c s Hc _ IH]; intros pos; cbn [finditer_from];
    [reflexivity |].
  rewrite match_here_not_bracket by exact Hc. apply IH.
Qed.

Lemma finditer_from_skip_prose (pre s : str) (pos : nat) :
  Forall (fun c => c <> (Latin "[")) pre ->
  finditer_from pos 0 (pre ++ s) = finditer_from (pos + length pre) 0 s.
Proof.
  intros Hpre. revert pos.
  induction Hpre as [| c pre Hc _ IH]; intros pos; cbn [app length].
  - rewrite Nat.add_0_r. reflexivity.
  - cbn [finditer_from]. rewrite match_here_not_bracket by exact Hc.
    rewrite IH. f_equal. lia.
Qed.

Lemma is_word_not_bracket (c : char) :
  is_word c = true -> c <> (Latin "[") /\ c <> (Latin "]") /\ c <> (Latin "|").
Proof.
  intros Hc. repeat split; intros ->; vm_compute in Hc; discriminate.
Qed.

Lemma span_word_name (name r : str) :
  Forall (fun c => is_word c = true) name ->
  span_word (name ++ (Latin "]") :: r) = (name, (Latin "]") :: r).
Proof.
  induction 1 as [| c name Hc _ IH]; cbn [app span_word].
  - reflexivity.
  - rewrite Hc, IH. reflexivity.
Qed.

Lemma lazy_until_bars_body (body after : str) :
  Forall (fun c => c <> (Latin "|")) body ->
  lazy_until_bars (body ++ "|||" ++ after) = Some body.
Proof.
  induction 1 as [| c body Hc _ IH].
  - reflexivity.
  - cbn [app]. cbn [lazy_until_bars].
    replace (startswith "|||" (c :: body ++ "|||" ++ after)) with false.
    + rewrite IH. reflexivity.
    + symmetry. cbn [startswith str_of_string].
      rewrite bool_decide_eq_false_2; [reflexivity | congruence].
Qed.

Lemma lazy_until_bars_none (rest : str) :
  Forall (fun c => c <> (Latin "|")) rest -> lazy_until_bars rest = None.
Proof.
  induction 1 as [| c rest Hc _ IH]; [reflexivity |].
  cbn [lazy_until_bars].
  replace (startswith "|||" (c :: rest)) with false.
  - rewrite IH. reflexivity.
  - symmetry. cbn [startswith str_of_string].
    rewrite bool_decide_eq_false_2; [reflexivity | congruence].
Qed.

(** A complete marker at the head of the text is matched, with its name
    and its content. *)
Lemma match_here_marker (name body after : str) :
  name <> [] -> Forall (fun c => is_word c = true) name ->
  Forall (fun c => c <> (Latin "|")) body ->
  match_here ("[" ++ name ++ "]|||" ++ body ++ "|||" ++ after)
  = Some (name, body, (1 + length name + 4 + length body + 3)%nat).
Proof.
  intros Hne Hname Hbody. cbn [app str_of_string]. unfold match_here.
  rewrite bool_decide_eq_true_2 by reflexivity.
  change (name ++ (Latin "]") :: (Latin "|") :: (Latin "|") :: (Latin "|")
            :: body ++ "|||" ++ after)
    with (name ++ (Latin "]") :: ("|||" ++ body ++ "|||" ++ after)).
  rewrite span_word_name by exact Hname.
  destruct name as [| c name]; [congruence |].
  match goal with
  | |- context [startswith ?p ?s] => change (startswith p s) with true
  end.
  match goal with
  | |- context [drop 4 ?s] => change (drop 4 s) with (body ++ "|||" ++ after)
  end.
  rewrite lazy_until_bars_body by exact Hbody. reflexivity.
Qed.

Lemma match_here_unclosed (name rest : str) :
  Forall (fun c => is_word c = true) name ->
  Forall (fun c => c <> (Latin "|")) rest ->
  match_here ("[" ++ name ++ "]|||" ++ rest) = None.
Proof.
  intros Hname Hrest. cbn [app str_of_string]. unfold match_here.
  rewrite bool_decide_eq_true_2 by reflexivity.
  change (name ++ (Latin "]") :: (Latin "|") :: (Latin "|") :: (Latin "|") :: rest)
    with (name ++ (Latin "]") :: ("|||" ++ rest)).
  rewrite span_word_name by exact Hname.
  destruct name as [| c name]; [reflexivity |].
  match goal with
  | |- context [startswith ?p ?s] => change (startswith p s) with true
  end.
  match goal with
  | |- context [drop 4 ?s] => change (drop 4 s) with rest
  end.
  rewrite lazy_until_bars_none by exact Hrest. reflexivity.
Qed.

Lemma finditer_from_spans (s : str) (pos skip : nat) :
  StronglySorted (fun a b => (m_start a < m_end a <= m_start b)%nat)
                 (finditer_from pos skip s).
Proof.
  revert pos skip. induction s as [| c s IH]; intros pos skip;
    cbn [finditer_from].
  - constructor.
  - destruct skip as [| k]; [| apply IH].
    destruct (match_here (c :: s)) as [[[g1 g2] n] |] eqn:Hm; [| apply IH].
    constructor; [apply IH |].
    apply Forall_forall. intros m Hin.
    apply finditer_from_ge in Hin. apply match_here_pos in Hm.
    cbn [m_start m_end]. lia.
Qed.

Lemma omap_strongly_sorted {A B : Type} (f : A -> option B)
    (R : A -> A -> Prop) (R' : B -> B -> Prop) (l : list A) :
  (forall a b ca cb, f a = Some ca -> f b = Some cb -> R a b -> R' ca cb) ->
  StronglySorted R l -> StronglySorted R' (omap f l).
Proof.
  intros Hf Hs. induction Hs as [| a l Hs IH Hall]; cbn [omap list_omap].
  - constructor.
  - destruct (f a) as [ca |] eqn:Hfa; [| exact IH].
    constructor; [exact IH |].
    apply Forall_forall. intros cb Hin.
    apply list_elem_of_omap in Hin as (b & Hb & Hfb).
    rewrite Forall_forall in Hall. eauto.
Qed.

(** X1. Every call the scan returns is a marker of the text: the text
    reads [\[name\]|||raw|||] from offset [start_pos] to offset [end_pos],
    the name is a non-empty run of word characters, the content is the
    trimmed [raw], the id is [tool_<start_pos>] and is absent from the
    executed table, and the call is as yet unexecuted. *)
Theorem scan_returns_markers (tp : ToolProcessor) (text : str) (tc : ToolCall) :
  tc ∈ find_unexecuted_tool_calls tp text ->
  exists before raw after : str,
    text = before ++ "[" ++ call_name tc ++ "]|||" ++ raw ++ "|||" ++ after
    /\ length before = start_pos tc
    /\ end_pos tc
       = (start_pos tc + length (call_name tc) + length raw + 8)%nat
    /\ call_name tc <> []
    /\ Forall (fun c => is_word c = true) (call_name tc)
    /\ call_content tc = strip raw
    /\ call_id tc = "tool_" ++ of_nat (start_pos tc)
    /\ executed_tools tp !! call_id tc = None
    /\ output tc = None /\ executed tc = false.
Proof.
  unfold find_unexecuted_tool_calls. intros Hin.
  apply list_elem_of_omap in Hin as (m & Hm & Hf).
  destruct (executed_tools tp !! tool_id (m_start m)) eqn:Hex;
    [discriminate |].
  injection Hf as <-.
  apply (finditer_from_sound [] text 0 m) in Hm
    as (before & after & Heq & Hlen & Hne & Hword & Hend).
  exists before, (group2 m), after. cbn.
  repeat split; try assumption.
  rewrite Hend. repeat (rewrite length_app || cbn [app str_of_string length]).
  lia.
Qed.

(** X2. Every call of a scan ends after it begins, and the calls of one
    scan come in the order of their offsets and do not overlap: each ends
    at or before the offset at which the next begins. *)
Theorem scan_calls_disjoint (tp : ToolProcessor) (text : str) :
  Forall (fun c => (start_pos c < end_pos c)%nat)
         (find_unexecuted_tool_calls tp text)
  /\ StronglySorted
       (fun a b => (start_pos a < end_pos a <= start_pos b)%nat)
       (find_unexecuted_tool_calls tp text).
Proof.
  unfold find_unexecuted_tool_calls. split.
  - apply Forall_forall. intros c Hin.
    apply list_elem_of_omap in Hin as (m & Hm & Hf).
    destruct (executed_tools tp !! tool_id (m_start m)); [discriminate |].
    injection Hf as <-. cbn [call_of_match start_pos end_pos].
    apply (finditer_from_sound [] text 0 m) in Hm
      as (before & after & _ & _ & _ & _ & Hend).
    rewrite Hend, length_app. cbn [str_of_string length]. lia.
  - eapply omap_strongly_sorted; [| apply finditer_from_spans].
    intros a b ca cb Ha Hb Hab.
    destruct (executed_tools tp !! tool_id (m_start a)); [discriminate |].
    destruct (executed_tools tp !! tool_id (m_start b)); [discriminate |].
    injection Ha as <-. injection Hb as <-. exact Hab.
Qed.

(** X3. A complete marker that follows text without an opening bracket
    is the first call of the scan, provided its offset has not been used:
    the scan reports its name, its trimmed content, its offset and its
    end. *)
Theorem scan_finds_first_marker (tp : ToolProcessor)
    (prose name body after : str) :
  Forall (fun c => c <> (Latin "[")) prose ->
  name <> [] -> Forall (fun c => is_word c = true) name ->
  Forall (fun c => c <> (Latin "|")) body ->
  executed_tools tp !! tool_id (length prose) = None ->
  exists others,
    find_unexecuted_tool_calls tp
      (prose ++ "[" ++ name ++ "]|||" ++ body ++ "|||" ++ after)
    = {| call_id := tool_id (length prose);
         call_name := name;
         call_content := strip body;
         start_pos := length prose;
         end_pos := (length prose + length name + length body + 8)%nat;
         output := None;
         executed := false |} :: others.
Proof.
  intros Hprose Hne Hname Hbody Hfree.
  unfold find_unexecuted_tool_calls, finditer.
  rewrite finditer_from_skip_prose by exact Hprose.
  pose proof (match_here_marker name body after Hne Hname Hbody) as Hm.
  destruct ("[" ++ name ++ "]|||" ++ body ++ "|||" ++ after) as [| c s] eqn:Hs;
    [discriminate |].
  cbn [finditer_from]. rewrite Hm. cbn [omap list_omap m_start].
  cbn [Nat.add]. rewrite Hfree. eexists. unfold call_of_match. cbn.
  do 2 f_equal. lia.
Qed.

(** X4. An opening [\[name\]|||] that no closing bars follow is not a
    call: with no opening bracket before it and neither bar nor bracket
    after it, the scan returns nothing. *)
Theorem scan_ignores_unclosed_marker (tp : ToolProcessor)
    (prose name rest : str) :
  Forall (fun c => c <> (Latin "[")) prose ->
  Forall (fun c => is_word c = true) name ->
  Forall (fun c => c <> (Latin "|") /\ c <> (Latin "[")) rest ->
  find_unexecuted_tool_calls tp (prose ++ "[" ++ name ++ "]|||" ++ rest) = [].
Proof.
  intros Hprose Hname Hrest.
  unfold find_unexecuted_tool_calls, finditer.
  rewrite finditer_from_skip_prose by exact Hprose.
  assert (Hbars : Forall (fun c => c <> (Latin "|")) rest)
    by (eapply Forall_impl; [exact Hrest | intros c [Hc _]; exact Hc]).
  pose proof (match_here_unclosed name rest Hname Hbars) as Hm.
  assert (Htail : Forall (fun c => c <> (Latin "[")) (name ++ "]|||" ++ rest)).
  { apply Forall_app. split.
    - eapply Forall_impl; [exact Hname |].
      intros c Hc. apply is_word_not_bracket. exact Hc.
    - cbn [app str_of_string].
      repeat (constructor; [discriminate |]).
      eapply Forall_impl; [exact Hrest | intros c [_ Hc]; exact Hc]. }
  cbn [app str_of_string] in Hm |- *. cbn [finditer_from].
  rewrite Hm. rewrite finditer_from_no_bracket by exact Htail. reflexivity.
Qed.

End ScannerMore.

(** ** The tool processor, continued *)

Section ToolProcessorMore.
Context `{External}.
Import PyStr.

Lemma str_of_string_inj (s t : string) :
  str_of_string s = str_of_string t -> s = t.
Proof.
  revert t. induction s as [| a s IH]; intros [| b t]; cbn; try discriminate.
  - reflexivity.
  - intros [= -> Hst]. f_equal. apply IH. exact Hst.
Qed.

Lemma tool_id_inj (i j : nat) : tool_id i = tool_id j -> i = j.
Proof.
  unfold tool_id, of_nat. intros Heq. apply app_inv_head in Heq.
  apply str_of_string_inj in Heq.
  exact (pretty_nat_inj _ _ Heq).
Qed.

Lemma process_text_quiet (tp : ToolProcessor) (text : str) (w : World) :
  find_unexecuted_tool_calls tp text = [] ->
  process_text tp text w = (Ok (text, false, None), tp, w).
Proof. intros Hq. unfold process_text. rewrite Hq. reflexivity. Qed.

(** X5. Once [process_text] has run the first unexecuted call of a text,
    a new scan of the same text returns the calls that were behind it, and
    only those: called again and again on one text, [process_text] runs its
    markers one by one in the order of their offsets, none twice. *)
Theorem rescan_returns_remaining (tp : ToolProcessor) (text : str) (w : World)
    (tc : ToolCall) (others : list ToolCall) :
  find_unexecuted_tool_calls tp text = tc :: others ->
  find_unexecuted_tool_calls (process_text tp text w).1.2 text = others.
Proof.
  intros Hfind.
  destruct (process_text_runs_head tp text w tc others Hfind)
    as (result & tp1 & w1 & _ & _ & tp2 & -> & Htab & _).
  cbn [fst snd].
  assert (Hid : call_id tc = tool_id (start_pos tc)).
  { assert (Hin : tc ∈ find_unexecuted_tool_calls tp text)
      by (rewrite Hfind; left).
    apply find_unexecuted_sound in Hin as (_ & Hid & _). exact Hid. }
  revert Hfind. unfold find_unexecuted_tool_calls. rewrite Htab, Hid.
  generalize (executed_call tc ("<<< " ++ result ++ " >>>")) as done.
  intros done.
  pose proof (finditer_from_sorted text 0 0) as Hs. fold (Re.finditer text) in Hs.
  induction Hs as [| m l Hs IH Hall]; cbn [omap list_omap]; [discriminate |].
  destruct (executed_tools tp !! tool_id (Re.m_start m)) as [c |] eqn:Hm.
  - intros Hrest.
    destruct (decide (tool_id (start_pos tc) = tool_id (Re.m_start m)))
      as [Heq | Hne].
    + rewrite Heq, lookup_insert_eq. rewrite <- Heq. apply IH. exact Hrest.
    + rewrite lookup_insert_ne, Hm by exact Hne. apply IH. exact Hrest.
  - intros [= <- <-]. cbn [start_pos call_of_match].
    rewrite lookup_insert_eq.
    clear IH Hs. induction l as [| m' l IH]; [reflexivity |].
    apply Forall_cons in Hall as [Hlt Hall]. cbn [omap list_omap].
    rewrite lookup_insert_ne
      by (intros Heq; apply tool_id_inj in Heq; lia).
    rewrite (IH Hall). reflexivity.
Qed.

(** X6. In every processor that [process_text] produces from a new one,
    each entry of the executed table is stored under its own id
    [tool_<start_pos>], is flagged executed and carries an output of the
    form [<<< inner >>>] with at most 1000 characters inside; and no more
    tool invocations have been logged than the table has entries. *)
Theorem executed_table_invariant (tp : ToolProcessor) :
  processor_reachable tp ->
  (forall (k : str) (c : ToolCall),
      executed_tools tp !! k = Some c ->
      call_id c = k /\ k = tool_id (start_pos c) /\ executed c = true
      /\ exists inner : str,
           output c = Some ("<<< " ++ inner ++ " >>>")
           /\ (length inner <= 1000)%nat)
  /\ (length (calls_logged tp) <= size (executed_tools tp))%nat.
Proof.
  induction 1 as [fns | tp text w Hreach [IHtab IHlog]].
  - split.
    + intros k c Hk. cbn in Hk. rewrite lookup_empty in Hk. discriminate.
    + cbn. lia.
  - destruct (find_unexecuted_tool_calls tp text) as [| tc others] eqn:Hfind.
    + rewrite process_text_quiet by exact Hfind. cbn [fst snd]. auto.
    + destruct (process_text_runs_head tp text w tc others Hfind)
        as (result & tp1 & w1 & _ & Hlen & tp2 & -> & Htab & _ & Hlog).
      cbn [fst snd].
      assert (Hin : tc ∈ find_unexecuted_tool_calls tp text)
        by (rewrite Hfind; left).
      apply find_unexecuted_sound in Hin as (Hfree & Hid & _).
      split.
      * intros k c. rewrite Htab.
        destruct (decide (call_id tc = k)) as [<- | Hne].
        -- rewrite lookup_insert_eq. intros [= <-]. cbn.
           repeat split; [exact Hid |]. exists result. auto.
        -- rewrite lookup_insert_ne by exact Hne. apply IHtab.
      * rewrite Htab, map_size_insert_None by exact Hfree.
        destruct Hlog as [-> | ->]; [lia |].
        rewrite length_app. cbn [length]. lia.
Qed.

End ToolProcessorMore.

(** ** The prompt manager, continued *)

Section PromptManagerMore.
Import PyStr.

Lemma complete_split_open (before after : list Message) (m : Message) :
  role m = assistant -> Forall not_assistant after ->
  complete_current_assistant (before ++ m :: after)
  = before ++ (if get_completed m then m else mark_completed m) :: after.
Proof.
  intros Hm Hafter. unfold complete_current_assistant.
  rewrite current_assistant_split by assumption.
  destruct (get_completed m); cbn [negb]; [reflexivity |].
  apply alter_middle.
Qed.

Lemma append_split (before after : list Message) (m : Message) (text : str) :
  role m = assistant -> Forall not_assistant after ->
  append_assistant_content (before ++ m :: after) text
  = if get_completed m then (before ++ m :: after) ++ [fresh_assistant text]
    else before ++ extend_content text m :: after.
Proof.
  intros Hm Hafter. unfold append_assistant_content.
  rewrite current_assistant_split by assumption.
  destruct (get_completed m); cbn [negb]; [reflexivity |].
  apply alter_middle.
Qed.

Lemma append_no_assistant (msgs : list Message) (text : str) :
  current_assistant msgs = None ->
  append_assistant_content msgs text = msgs ++ [fresh_assistant text].
Proof. intros Hcur. unfold append_assistant_content. rewrite Hcur. reflexivity. Qed.

(** X7. Completing the current assistant entry twice is completing it
    once; and after a completion the next assistant text always opens a
    new entry at the end of the log. *)
Theorem complete_closes_turn (msgs : list Message) (text : str) :
  complete_current_assistant (complete_current_assistant msgs)
  = complete_current_assistant msgs
  /\ append_assistant_content (complete_current_assistant msgs) text
     = complete_current_assistant msgs ++ [fresh_assistant text].
Proof.
  destruct (current_assistant msgs) as [[i m] |] eqn:Hcur.
  - apply current_assistant_some in Hcur
      as (before & after & -> & _ & Hm & Hafter).
    rewrite complete_split_open by assumption.
    destruct (get_completed m) eqn:Hc.
    + rewrite complete_split_open, append_split, Hc by assumption. auto.
    + rewrite complete_split_open, append_split by assumption. auto.
  - assert (Hsame : complete_current_assistant msgs = msgs)
      by (unfold complete_current_assistant; rewrite Hcur; reflexivity).
    rewrite !Hsame.
    split; [reflexivity | apply append_no_assistant; exact Hcur].
Qed.

(** X8. Appending assistant text in two pieces is appending their
    concatenation: the pieces of a streamed turn accumulate in one entry. *)
Theorem append_assistant_content_twice (msgs : list Message) (a b : str) :
  append_assistant_content (append_assistant_content msgs a) b
  = append_assistant_content msgs (a ++ b).
Proof.
  assert (Hfresh : forall l,
    append_assistant_content (l ++ [fresh_assistant a]) b
    = l ++ [fresh_assistant (a ++ b)]).
  { intros l. rewrite (append_split l [] (fresh_assistant a))
      by (reflexivity || constructor). reflexivity. }
  destruct (current_assistant msgs) as [[i m] |] eqn:Hcur.
  - apply current_assistant_some in Hcur
      as (before & after & -> & _ & Hm & Hafter).
    rewrite !(append_split before after m) by assumption.
    destruct (get_completed m) eqn:Hc; [apply Hfresh |].
    rewrite (append_split before after (extend_content a m)) by assumption.
    replace (get_completed (extend_content a m)) with false
      by (symmetry; exact Hc).
    unfold extend_content. cbn. rewrite <- app_assoc. reflexivity.
  - rewrite (append_no_assistant msgs a Hcur),
      (append_no_assistant msgs (a ++ b) Hcur).
    apply Hfresh.
Qed.

(** X9. For a positive tail length [n], [get_context_tail] returns the
    last [min n (len content)] characters of the latest assistant entry,
    and the empty string when the log has no assistant entry. *)
Theorem context_tail_is_suffix (n : Z) (msgs : list Message) :
  0 < n ->
  match last (assistant_msgs msgs) with
  | None => get_context_tail n msgs = []
  | Some m =>
      exists head : str,
        content m = head ++ get_context_tail n msgs
        /\ length (get_context_tail n msgs)
           = Nat.min (Z.to_nat n) (length (content m))
  end.
Proof.
  intros Hn. unfold get_context_tail.
  destruct (last (assistant_msgs msgs)) as [m |]; [| reflexivity].
  unfold len, slice_from.
  destruct (Z.ltb_spec n (Z.of_nat (length (content m)))) as [Hlt | Hge].
  - destruct (Z.ltb_spec (- n) 0) as [_ | Hneg]; [| lia].
    exists (take (Z.to_nat (Z.max 0 (Z.of_nat (length (content m)) + - n)))
                 (content m)).
    rewrite take_drop, length_drop. split; [reflexivity |].
    unfold len. lia.
  - exists []. split; [reflexivity | lia].
Qed.

(** X10. With a tail length of 0 the whole content of the latest
    assistant entry is returned, not an empty tail: [content[-0:]] is
    [content[0:]]. *)
Theorem context_tail_zero_is_whole (msgs : list Message) :
  get_context_tail 0 msgs
  = match last (assistant_msgs msgs) with
    | Some m => content m
    | None => []
    end.
Proof.
  unfold get_context_tail.
  destruct (last (assistant_msgs msgs)) as [m |]; [| reflexivity].
  destruct (0 <? len (content m)); reflexivity.
Qed.

End PromptManagerMore.

(** ** The task agent, continued *)

Section LogPreservation.
Context `{External}.
Import PyStr.

(** A property of logs that the primitives of the prompt manager keep is
    kept by every operation of the agent. *)
Variable P : list Message -> Prop.
Hypothesis P_append : forall msgs text, P msgs -> P (append_assistant_content msgs text).
Hypothesis P_complete : forall msgs, P msgs -> P (complete_current_assistant msgs).
Hypothesis P_user : forall msgs x, role x = user -> P msgs -> P (msgs ++ [x]).

Lemma process_tool_call_keeps (a : TaskAgent) (tc : ToolCall) (text : str)
    (w : World) :
  P (prompt_manager a) ->
  P (prompt_manager (process_tool_call a tc text w).1.2).
Proof.
  intros HP. unfold process_tool_call.
  assert (HP3 : P (add_tool_output_as_user_message
                     (complete_current_assistant
                        (append_assistant_content (prompt_manager a) text))
                     (call_name tc) (format_optional (output tc))))
    by (apply P_user; [reflexivity | auto]).
  destruct (get_feedback _ w) as [[feedback | e] w1]; cbn; [| exact HP3].
  apply P_user; [reflexivity | exact HP3].
Qed.

Lemma handle_generation_output_keeps (a : TaskAgent) (token_buffer : str)
    (iteration : Z) (w : World) :
  P (prompt_manager a) ->
  P (prompt_manager (handle_generation_output a token_buffer iteration w).1.2).
Proof.
  intros HP. unfold handle_generation_output.
  destruct (process_text (tool_processor a) token_buffer w)
    as [[[[[updated processed] call] | e] tp1] w1]; cbn; [| exact HP].
  destruct processed; [| exact HP].
  destruct call as [tc |]; [| exact HP].
  pose proof (process_tool_call_keeps (with_tool_processor a tp1) tc
                token_buffer w1 HP) as HP'.
  destruct (process_tool_call (with_tool_processor a tp1) tc token_buffer w1)
    as [[[u | e] a2] w2]; exact HP'.
Qed.

Lemma handle_error_keeps (a : TaskAgent) (error : str) (w : World) :
  P (prompt_manager a) -> P (prompt_manager (handle_error a error w).1.2).
Proof.
  intros HP. unfold handle_error.
  assert (HP2 : P (complete_current_assistant
                     (append_assistant_content (prompt_manager a)
                        (LF ++ "Error during execution: " ++ error))))
    by auto.
  destruct (get_feedback _ w) as [[feedback | e] w1]; cbn; [| exact HP2].
  destruct (last _); cbn; (apply P_user; [reflexivity | exact HP2]).
Qed.

Lemma consume_tokens_keeps (toks : list str) (token_buffer : str)
    (a : TaskAgent) (iteration : Z) (w : World) :
  P (prompt_manager a) ->
  P (prompt_manager (consume_tokens toks token_buffer a iteration w).1.2).
Proof.
  revert token_buffer a w.
  induction toks as [| token rest IH]; intros token_buffer a w HP;
    cbn [consume_tokens]; [exact HP |].
  pose proof (handle_generation_output_keeps a (token_buffer ++ token)
                iteration w HP) as HP1.
  destruct (handle_generation_output a (token_buffer ++ token) iteration w)
    as [[[[processed buffer'] | e] a1] w1]; cbn in HP1 |- *; [| exact HP1].
  destruct processed; [exact HP1 | apply IH; exact HP1].
Qed.

Lemma process_iteration_keeps (a : TaskAgent) (iteration : Z) (w : World) :
  P (prompt_manager a) ->
  P (prompt_manager (process_iteration a iteration w).1.2).
Proof.
  intros HP. unfold process_iteration.
  assert (HP1 : P (prompt_manager (generate_and_dispatch a iteration w).1.2)).
  { unfold generate_and_dispatch.
    destruct (generate_tokens main_runner (prompt_manager a) w) as [s w0].
    pose proof (consume_tokens_keeps (tokens s) [] a iteration w0 HP) as HP1.
    destruct (consume_tokens (tokens s) [] a iteration w0)
      as [[[[v | token_buffer] | e] a1] w1]; cbn in HP1 |- *;
      try exact HP1.
    destruct (failure s); [exact HP1 |].
    pose proof (handle_generation_output_keeps a1 token_buffer iteration w1 HP1)
      as HP2.
    destruct (handle_generation_output a1 token_buffer iteration w1)
      as [[[[processed buffer'] | e] a2] w2]; cbn in HP2 |- *;
      [| exact HP2].
    destruct (negb processed && negb (bool_decide (buffer' = [])));
      [| exact HP2].
    cbn. apply P_append. exact HP2. }
  destruct (generate_and_dispatch a iteration w) as [[[v | e] a1] w1];
    cbn in HP1 |- *; [exact HP1 |].
  apply handle_error_keeps. exact HP1.
Qed.

Lemma run_loop_keeps (budget : nat) (iteration : Z) (a : TaskAgent) (w : World) :
  P (prompt_manager a) ->
  P (prompt_manager (run_loop budget iteration a w).1.2).
Proof.
  revert iteration a w.
  induction budget as [| budget IH]; intros iteration a w HP; cbn [run_loop].
  - assert (HP2 : P (complete_current_assistant
                       (append_assistant_content (prompt_manager a)
                          MAX_ITERATIONS_MESSAGE))) by auto.
    destruct (last _); exact HP2.
  - pose proof (process_iteration_keeps a (iteration + 1) w HP) as HP1.
    destruct (process_iteration a (iteration + 1) w)
      as [[[v | e] a1] w1]; cbn in HP1 |- *; [| exact HP1].
    destruct v; [apply IH; exact HP1 | exact HP1 | exact HP1].
Qed.

Lemma run_keeps (a : TaskAgent) (w : World) :
  P (prompt_manager a) -> P (prompt_manager (run a w).1.2).
Proof.
  intros HP. unfold run.
  destruct (prompt_manager a !! 1%nat); [| exact HP].
  apply run_loop_keeps. exact HP.
Qed.

End LogPreservation.

Section AppendOnly.
Context `{External}.
Import PyStr.

Lemma log_extends_refl (msgs : list Message) : log_extends msgs msgs.
Proof.
  intros i m Hi. exists m. split; [exact Hi |]. split; [reflexivity |].
  split; [| reflexivity]. exists []. rewrite app_nil_r. reflexivity.
Qed.

Lemma log_extends_trans (l1 l2 l3 : list Message) :
  log_extends l1 l2 -> log_extends l2 l3 -> log_extends l1 l3.
Proof.
  intros H12 H23 i m Hi.
  destruct (H12 i m Hi) as (m2 & Hi2 & Hr2 & [more2 Hc2] & Hs2).
  destruct (H23 i m2 Hi2) as (m3 & Hi3 & Hr3 & [more3 Hc3] & Hs3).
  exists m3. split; [exact Hi3 |]. split; [congruence |]. split.
  - exists (more2 ++ more3). rewrite Hc3, Hc2, app_assoc. reflexivity.
  - intros Hs. specialize (Hs2 Hs). subst m2. apply Hs3. exact Hs.
Qed.

Lemma log_extends_snoc (msgs : list Message) (x : Message) :
  log_extends msgs (msgs ++ [x]).
Proof.
  intros i m Hi. exists m.
  rewrite lookup_app_l by (eapply lookup_lt_Some; exact Hi).
  split; [exact Hi |]. split; [reflexivity |].
  split; [| reflexivity]. exists []. rewrite app_nil_r. reflexivity.
Qed.

Lemma log_extends_alter_open (f : Message -> Message) (msgs : list Message)
    (i : nat) (m : Message) :
  current_assistant msgs = Some (i, m) -> get_completed m = false ->
  (forall x, role (f x) = role x /\ exists more, content (f x) = content x ++ more) ->
  log_extends msgs (alter f i msgs).
Proof.
  intros Hcur Hopen Hf j x Hj.
  apply current_assistant_some in Hcur
    as (before & after & -> & <- & Hm & _).
  destruct (decide (length before = j)) as [<- | Hne].
  - rewrite list_lookup_middle in Hj by reflexivity. injection Hj as <-.
    exists (f m). rewrite alter_middle, list_lookup_middle by reflexivity.
    destruct (Hf m) as [Hr Hc].
    split; [reflexivity |]. split; [exact Hr |]. split; [exact Hc |].
    intros [Hs | Hs]; [contradiction |].
    unfold get_completed in Hopen. rewrite Hs in Hopen. discriminate.
  - exists x. rewrite list_lookup_alter_ne by exact Hne.
    split; [exact Hj |]. split; [reflexivity |].
    split; [| reflexivity]. exists []. rewrite app_nil_r. reflexivity.
Qed.

Lemma append_assistant_content_extends (msgs : list Message) (text : str) :
  log_extends msgs (append_assistant_content msgs text).
Proof.
  unfold append_assistant_content.
  destruct (current_assistant msgs) as [[i m] |] eqn:Hcur;
    [| apply log_extends_snoc].
  destruct (get_completed m) eqn:Hc; cbn [negb]; [apply log_extends_snoc |].
  apply (log_extends_alter_open _ _ _ m); [exact Hcur | exact Hc |].
  intros x. split; [reflexivity |]. exists text. reflexivity.
Qed.

Lemma complete_current_assistant_extends (msgs : list Message) :
  log_extends msgs (complete_current_assistant msgs).
Proof.
  unfold complete_current_assistant.
  destruct (current_assistant msgs) as [[i m] |] eqn:Hcur;
    [| apply log_extends_refl].
  destruct (get_completed m) eqn:Hc; cbn [negb]; [apply log_extends_refl |].
  apply (log_extends_alter_open _ _ _ m); [exact Hcur | exact Hc |].
  intros x. split; [reflexivity |]. exists []. cbn. rewrite app_nil_r.
  reflexivity.
Qed.

(** X11. Whatever the models and the tools do, a pass of the loop and a
    whole [run] only continue the log: every entry stays at its index with
    its role, its content can only grow at its end, and an entry that is
    not an open assistant entry (a system or user message, a completed
    assistant entry) is left exactly as it was. *)
Theorem agent_continues_log (a : TaskAgent) (iteration : Z) (w : World) :
  log_extends (prompt_manager a)
              (prompt_manager (process_iteration a iteration w).1.2)
  /\ log_extends (prompt_manager a) (prompt_manager (run a w).1.2).
Proof.
  split.
  - apply (process_iteration_keeps (log_extends (prompt_manager a))).
    + intros msgs text Hm. eapply log_extends_trans; [exact Hm |].
      apply append_assistant_content_extends.
    + intros msgs Hm. eapply log_extends_trans; [exact Hm |].
      apply complete_current_assistant_extends.
    + intros msgs x _ Hm. eapply log_extends_trans; [exact Hm |].
      apply log_extends_snoc.
    + apply log_extends_refl.
  - apply (run_keeps (log_extends (prompt_manager a))).
    + intros msgs text Hm. eapply log_extends_trans; [exact Hm |].
      apply append_assistant_content_extends.
    + intros msgs Hm. eapply log_extends_trans; [exact Hm |].
      apply complete_current_assistant_extends.
    + intros msgs x _ Hm. eapply log_extends_trans; [exact Hm |].
      apply log_extends_snoc.
    + apply log_extends_refl.
Qed.

Lemma starts_with_system_extends (msgs msgs' : list Message) :
  log_extends msgs msgs' -> starts_with_system msgs -> starts_with_system msgs'.
Proof.
  intros Hext [text H0]. exists text.
  destruct (Hext 0%nat _ H0) as (m' & H0' & _ & _ & Hs).
  rewrite H0'. f_equal. apply Hs. left. discriminate.
Qed.

(** X12. In every agent the operations produce, the log begins with the
    system message. *)
Theorem reachable_starts_with_system (a : TaskAgent) :
  reachable a ->
  exists text,
    prompt_manager a !! 0%nat
    = Some {| role := system; content := text;
              completed := None; origin := by_init |}.
Proof.
  intros Hreach. change (starts_with_system (prompt_manager a)).
  assert (Happend : forall msgs text, starts_with_system msgs ->
                      starts_with_system (append_assistant_content msgs text))
    by (intros msgs text; apply starts_with_system_extends,
          append_assistant_content_extends).
  assert (Hcomplete : forall msgs, starts_with_system msgs ->
                        starts_with_system (complete_current_assistant msgs))
    by (intros msgs; apply starts_with_system_extends,
          complete_current_assistant_extends).
  assert (Huser : forall msgs x, role x = user -> starts_with_system msgs ->
                    starts_with_system (msgs ++ [x]))
    by (intros msgs x _; apply starts_with_system_extends, log_extends_snoc).
  induction Hreach.
  - eexists. reflexivity.
  - cbn. apply Huser; [reflexivity | assumption].
  - apply process_tool_call_keeps; assumption.
  - apply handle_generation_output_keeps; assumption.
  - apply handle_error_keeps; assumption.
  - apply process_iteration_keeps; assumption.
  - apply run_keeps; assumption.
Qed.

End AppendOnly.

Section Configuration.
Context `{External}.
Import PyStr.

Lemma process_text_keeps_registry (tp : ToolProcessor) (text : str) (w : World) :
  available_functions (process_text tp text w).1.2 = available_functions tp
  /\ executed_tools tp ⊆ executed_tools (process_text tp text w).1.2.
Proof.
  destruct (find_unexecuted_tool_calls tp text) as [| tc others] eqn:Hfind.
  - rewrite process_text_quiet by exact Hfind. split; reflexivity.
  - destruct (process_text_runs_head tp text w tc others Hfind)
      as (result & tp1 & w1 & _ & _ & tp2 & -> & Htab & Hfns & _).
    cbn [fst snd]. split; [exact Hfns |]. rewrite Htab.
    apply insert_subseteq.
    assert (Hin : tc ∈ find_unexecuted_tool_calls tp text)
      by (rewrite Hfind; left).
    apply find_unexecuted_sound in Hin as (Hfree & _). exact Hfree.
Qed.

Lemma same_configuration_refl (a : TaskAgent) : same_configuration a a.
Proof. split; [reflexivity |]. split; reflexivity. Qed.

Lemma same_configuration_trans (a b c : TaskAgent) :
  same_configuration a b -> same_configuration b c -> same_configuration a c.
Proof.
  intros (H1 & H2 & H3) (H4 & H5 & H6).
  split; [congruence |]. split; [congruence |].
  etransitivity; eassumption.
Qed.

Lemma same_configuration_log (a : TaskAgent) (msgs : list Message) :
  same_configuration a (with_prompt_manager a msgs).
Proof. split; [reflexivity |]. split; reflexivity. Qed.

Lemma process_tool_call_configuration (a : TaskAgent) (tc : ToolCall)
    (text : str) (w : World) :
  same_configuration a (process_tool_call a tc text w).1.2.
Proof.
  unfold process_tool_call.
  destruct (get_feedback _ w) as [[feedback | e] w1]; cbn;
    apply same_configuration_log.
Qed.

Lemma handle_generation_output_configuration (a : TaskAgent)
    (token_buffer : str) (iteration : Z) (w : World) :
  same_configuration a
    (handle_generation_output a token_buffer iteration w).1.2.
Proof.
  unfold handle_generation_output.
  pose proof (process_text_keeps_registry (tool_processor a) token_buffer w)
    as [Hfns Htab].
  destruct (process_text (tool_processor a) token_buffer w)
    as [[[[[updated processed] call] | e] tp1] w1]; cbn [fst snd] in *.
  - assert (Hstep : same_configuration a (with_tool_processor a tp1))
      by (split; [reflexivity |]; split; assumption).
    destruct processed; [| exact Hstep].
    destruct call as [tc |]; [| exact Hstep].
    pose proof (process_tool_call_configuration (with_tool_processor a tp1)
                  tc token_buffer w1) as Hcall.
    destruct (process_tool_call (with_tool_processor a tp1) tc token_buffer w1)
      as [[[u | e] a2] w2]; cbn [fst snd] in *;
      (eapply same_configuration_trans; [exact Hstep | exact Hcall]).
  - split; [reflexivity |]. split; assumption.
Qed.

Lemma handle_error_configuration (a : TaskAgent) (error : str) (w : World) :
  same_configuration a (handle_error a error w).1.2.
Proof.
  unfold handle_error.
  destruct (get_feedback _ w) as [[feedback | e] w1]; cbn;
    [| apply same_configuration_log].
  destruct (last _); cbn; apply same_configuration_log.
Qed.

Lemma consume_tokens_configuration (toks : list str) (token_buffer : str)
    (a : TaskAgent) (iteration : Z) (w : World) :
  same_configuration a (consume_tokens toks token_buffer a iteration w).1.2.
Proof.
  revert token_buffer a w.
  induction toks as [| token rest IH]; intros token_buffer a w;
    cbn [consume_tokens]; [apply same_configuration_refl |].
  pose proof (handle_generation_output_configuration a (token_buffer ++ token)
                iteration w) as H1.
  destruct (handle_generation_output a (token_buffer ++ token) iteration w)
    as [[[[processed buffer'] | e] a1] w1]; cbn [fst snd] in *; [| exact H1].
  destruct processed; [exact H1 |].
  eapply same_configuration_trans; [exact H1 | apply IH].
Qed.

Lemma process_iteration_configuration (a : TaskAgent) (iteration : Z)
    (w : World) :
  same_configuration a (process_iteration a iteration w).1.2.
Proof.
  unfold process_iteration.
  assert (H1 : same_configuration a (generate_and_dispatch a iteration w).1.2).
  { unfold generate_and_dispatch.
    destruct (generate_tokens main_runner (prompt_manager a) w) as [s w0].
    pose proof (consume_tokens_configuration (tokens s) [] a iteration w0) as H1.
    destruct (consume_tokens (tokens s) [] a iteration w0)
      as [[[[v | token_buffer] | e] a1] w1]; cbn [fst snd] in *;
      try exact H1.
    destruct (failure s); [exact H1 |].
    pose proof (handle_generation_output_configuration a1 token_buffer
                  iteration w1) as H2.
    destruct (handle_generation_output a1 token_buffer iteration w1)
      as [[[[processed buffer'] | e] a2] w2]; cbn [fst snd] in *.
    - destruct (negb processed && negb (bool_decide (buffer' = []))).
      + eapply same_configuration_trans; [exact H1 |].
        eapply same_configuration_trans; [exact H2 |].
        apply same_configuration_log.
      + eapply same_configuration_trans; [exact H1 | exact H2].
    - eapply same_configuration_trans; [exact H1 | exact H2]. }
  destruct (generate_and_dispatch a iteration w) as [[[v | e] a1] w1];
    cbn [fst snd] in *; [exact H1 |].
  eapply same_configuration_trans; [exact H1 |].
  apply handle_error_configuration.
Qed.

Lemma run_loop_configuration (budget : nat) (iteration : Z) (a : TaskAgent)
    (w : World) :
  same_configuration a (run_loop budget iteration a w).1.2.
Proof.
  revert iteration a w.
  induction budget as [| budget IH]; intros iteration a w; cbn [run_loop].
  - destruct (last _); apply same_configuration_log.
  - pose proof (process_iteration_configuration a (iteration + 1) w) as H1.
    destruct (process_iteration a (iteration + 1) w)
      as [[[v | e] a1] w1]; cbn [fst snd] in *; [| exact H1].
    destruct v; [| exact H1 | exact H1].
    eapply same_configuration_trans; [exact H1 | apply IH].
Qed.

(** X13. [run] never changes the iteration cap of the agent nor its tool
    registry, and it never removes or replaces an entry of the executed
    table: every call executed before the run is still recorded, unchanged,
    after it. *)
Theorem run_keeps_configuration (a : TaskAgent) (w : World) :
  max_iterations (run a w).1.2 = max_iterations a
  /\ available_functions (tool_processor (run a w).1.2)
     = available_functions (tool_processor a)
  /\ forall (k : str) (c : ToolCall),
       executed_tools (tool_processor a) !! k = Some c ->
       executed_tools (tool_processor (run a w).1.2) !! k = Some c.
Proof.
  assert (Hrun : same_configuration a (run a w).1.2).
  { unfold run. destruct (prompt_manager a !! 1%nat);
      [apply run_loop_configuration | apply same_configuration_refl]. }
  destruct Hrun as (Hmax & Hfns & Htab).
  split; [exact Hmax |]. split; [exact Hfns |].
  intros k c Hk. eapply lookup_weaken; [exact Hk | exact Htab].
Qed.

End Configuration.

Section PassOutcomes.
Context `{External}.
Import PyStr.

Lemma find_absent (sub s : str) :
  contains sub s = false -> find sub s = -1.
Proof.
  intros Hno. destruct (find_spec sub s) as [[Hf _] | (pre & Hpre & _)];
    [exact Hf |].
  assert (Hin : contains sub s = true) by (apply contains_spec; eauto).
  congruence.
Qed.

(** X14. With a cap that is not positive, [check_completion] reports a
    completion for any latest assistant entry, sentinel or not: when the
    sentinel is absent, [find] gives -1 and the result is the content from
    its fifteenth character on, trimmed, or the default result. *)
Theorem completion_without_sentinel (a : TaskAgent) (m : Message) :
  max_iterations a <= 0 ->
  last (assistant_msgs (prompt_manager a)) = Some m ->
  contains TASK_COMPLETE_TAG (lower (content m)) = false ->
  check_completion a
  = Some (match strip (drop 14 (content m)) with
          | [] => TASK_COMPLETE_DEFAULT_RESULT
          | _ :: _ => strip (drop 14 (content m))
          end).
Proof.
  intros Hcap Hlast Hno. unfold check_completion, should_continue.
  rewrite Hlast, Hno, (find_absent _ _ Hno).
  destruct (Z.ltb_spec 0 (max_iterations a)) as [Hpos | _]; [lia |].
  reflexivity.
Qed.

Lemma consume_tokens_after_quiet (before rest : list str) (token_buffer : str)
    (a : TaskAgent) (iteration : Z) (w : World) :
  quiet_from (tool_processor a) token_buffer before = true ->
  consume_tokens (before ++ rest) token_buffer a iteration w
  = consume_tokens rest (token_buffer ++ concat before) a iteration w.
Proof.
  revert token_buffer.
  induction before as [| token before IH]; intros token_buffer;
    cbn [quiet_from app concat consume_tokens].
  - rewrite app_nil_r. reflexivity.
  - destruct (find_unexecuted_tool_calls (tool_processor a)
                (token_buffer ++ token)) eqn:Hq; [| discriminate].
    intros Hrest. rewrite handle_generation_output_quiet by exact Hq.
    rewrite IH by exact Hrest. rewrite <- app_assoc. reflexivity.
Qed.

Lemma handle_generation_output_runs (a : TaskAgent) (token_buffer : str)
    (iteration : Z) (w : World) (tc : ToolCall) (others : list ToolCall) :
  find_unexecuted_tool_calls (tool_processor a) token_buffer = tc :: others ->
  (forall msgs,
      failure (generate_tokens feedback_runner msgs
                 (execute_tool (tool_processor a) tc w).2).1 = None) ->
  exists a' w',
    handle_generation_output a token_buffer iteration w
    = (Ok (true, []), a', w').
Proof.
  intros Hfind Hcritic.
  destruct (process_text_runs_head (tool_processor a) token_buffer w
              tc others Hfind)
    as (result & tp1 & w1 & Hexec & _ & tp2 & Hpt & _).
  rewrite Hexec in Hcritic. cbn [snd] in Hcritic.
  unfold handle_generation_output. rewrite Hpt.
  unfold process_tool_call, get_feedback.
  match goal with
  | |- context [generate_tokens feedback_runner ?msgs w1] =>
      specialize (Hcritic msgs);
      destruct (generate_tokens feedback_runner msgs w1) as [s w2]
  end.
  cbn [fst] in Hcritic. rewrite Hcritic. eauto.
Qed.

(** X15. A pass of the loop in which a marker becomes executable, the
    critic answering, makes [process_iteration] return [False]; [False] is
    not [None], so [run] returns [False] at that pass whatever budget is
    left, and the rest of the stream is never read. *)
Theorem tool_pass_ends_run (a : TaskAgent) (w w0 : World) (s : Stream)
    (before rest : list str) (token : str) (tc : ToolCall)
    (others : list ToolCall) (budget : nat) (iteration : Z) :
  generate_tokens main_runner (prompt_manager a) w = (s, w0) ->
  tokens s = before ++ token :: rest ->
  quiet_from (tool_processor a) [] before = true ->
  find_unexecuted_tool_calls (tool_processor a) (concat before ++ token)
  = tc :: others ->
  (forall msgs,
      failure (generate_tokens feedback_runner msgs
                 (execute_tool (tool_processor a) tc w0).2).1 = None) ->
  exists a' w',
    process_iteration a (iteration + 1) w = (Ok PyFalse, a', w')
    /\ run_loop (S budget) iteration a w = (Ok PyFalse, iteration + 1, a', w').
Proof.
  intros Hgen Htokens Hquiet Hfind Hcritic.
  destruct (handle_generation_output_runs a (concat before ++ token)
              (iteration + 1) w0 tc others Hfind Hcritic)
    as (a' & w' & Hgo).
  assert (Hiter : process_iteration a (iteration + 1) w = (Ok PyFalse, a', w')).
  { unfold process_iteration, generate_and_dispatch.
    rewrite Hgen, Htokens, consume_tokens_after_quiet by exact Hquiet.
    cbn [app consume_tokens]. rewrite Hgo. reflexivity. }
  exists a', w'. split; [exact Hiter |].
  cbn [run_loop]. rewrite Hiter. reflexivity.
Qed.

(** X16. When the stream of the main model fails before any marker has
    become executable, the tokens received so far are dropped: the log gets
    the error text as a completed assistant turn and the critic's answer,
    nothing of the buffer; the tool processor is untouched; and [run]
    returns the critic's answer at that pass. *)
Theorem failed_stream_is_dropped (a : TaskAgent) (w w0 w1 : World) (s : Stream)
    (error feedback : str) (budget : nat) (iteration : Z) :
  generate_tokens main_runner (prompt_manager a) w = (s, w0) ->
  failure s = Some error ->
  quiet_from (tool_processor a) [] (tokens s) = true ->
  get_feedback
    (complete_current_assistant
       (append_assistant_content (prompt_manager a)
          (LF ++ "Error during execution: " ++ error))) w0
  = (Ok feedback, w1) ->
  run_loop (S budget) iteration a w
  = (Ok (PyStr feedback), iteration + 1,
     with_prompt_manager a
       (complete_current_assistant
          (append_assistant_content (prompt_manager a)
             (LF ++ "Error during execution: " ++ error))
        ++ [ {| role := user; content := feedback;
                completed := None; origin := by_feedback |} ]),
     w1).
Proof.
  intros Hgen Hfail Hquiet Hfb. cbn [run_loop].
  unfold process_iteration, generate_and_dispatch.
  rewrite Hgen, consume_tokens_quiet, Hfail by exact Hquiet.
  unfold handle_error. rewrite Hfb.
  unfold add_feedback_as_user_message. rewrite last_snoc. reflexivity.
Qed.

End PassOutcomes.

(** ** The tools behind the registry *)

Section ToolDisplay.
Context `{External}.
Import PyStr.

Lemma lstrip_head (s : str) :
  lstrip s = [] \/ exists c t, lstrip s = c :: t /\ is_space c = false.
Proof.
  induction s as [| c s IH]; cbn [lstrip]; [left; reflexivity |].
  destruct (is_space c) eqn:Hc; [exact IH |]. right. eauto.
Qed.

Lemma lstrip_fixed (c : char) (t : str) :
  is_space c = false -> lstrip (c :: t) = c :: t.
Proof. intros Hc. cbn [lstrip]. rewrite Hc. reflexivity. Qed.

Lemma rstrip_last (s : str) :
  rstrip s = [] \/ exists z d, rstrip s = z ++ [d] /\ is_space d = false.
Proof.
  unfold rstrip.
  destruct (lstrip_head (reverse s)) as [-> | (c & t & -> & Hc)];
    [left; reflexivity |].
  right. exists (reverse t), c. rewrite reverse_cons. auto.
Qed.

Lemma rstrip_fixed (z : str) (d : char) :
  is_space d = false -> rstrip (z ++ [d]) = z ++ [d].
Proof. intros Hd. rewrite rstrip_app by exact Hd. reflexivity. Qed.

(** What trimming returns has no white space at either end. *)
Lemma strip_shape (s : str) :
  strip s = []
  \/ exists c t z d, strip s = c :: t /\ is_space c = false
                     /\ strip s = z ++ [d] /\ is_space d = false.
Proof.
  unfold strip.
  destruct (lstrip_head s) as [-> | (c & t & -> & Hc)];
    [left; reflexivity |].
  right. pose proof (rstrip_app [] t c Hc) as Hr. cbn [app] in Hr.
  rewrite Hr. exists c, (rstrip t).
  destruct (rstrip_last t) as [-> | (z & d & -> & Hd)].
  - exists [], c. auto.
  - exists (c :: z), d. auto.
Qed.

Lemma strip_fixed (c d : char) (t z : str) (u : str) :
  u = c :: t -> is_space c = false -> u = z ++ [d] -> is_space d = false ->
  strip u = u.
Proof.
  intros Hct Hc Hzd Hd. unfold strip.
  rewrite Hct, lstrip_fixed by exact Hc. rewrite <- Hct, Hzd.
  apply rstrip_fixed. exact Hd.
Qed.

Lemma strip_strip (s : str) : strip (strip s) = strip s.
Proof.
  destruct (strip_shape s) as [-> | (c & t & z & d & Hct & Hc & Hzd & Hd)];
    [reflexivity |].
  eapply strip_fixed; eassumption.
Qed.

Lemma returned_output_display (tp : ToolProcessor) (tc : ToolCall)
    (w w1 : World) (f : Tool) (args : Kwargs) (result : str) :
  available_functions tp !! call_name tc = Some f ->
  build_args tc = Ok args ->
  f args w = (Ok result, w1) ->
  (execute_tool tp tc w).1.1
  = Ok ("<<< " ++ take 1000 (match result with
                             | [] => "no output" : str
                             | _ :: _ => strip result
                             end) ++ " >>>").
Proof.
  intros Hf Hargs Hcall.
  unfold execute_tool, call_function. rewrite Hf, Hargs, Hcall. cbn [fst].
  rewrite truncate_take. reflexivity.
Qed.

Lemma exit_zero_results (timeout : Z) (stdout stderr : str) :
  Tools.shell timeout (Tools.Exited 0 stdout stderr) = strip stdout
  /\ Tools.run_python (Tools.ScriptExited 0 stdout stderr)
     = or_else (strip stdout) "no output".
Proof.
  unfold Tools.shell, Tools.run_python.
  rewrite !bool_decide_eq_true_2 by reflexivity. split; reflexivity.
Qed.

Lemma exit_nonzero_results (timeout returncode : Z) (stdout stderr : str) :
  returncode <> 0 ->
  Tools.shell timeout (Tools.Exited returncode stdout stderr)
  = "Error: " ++ strip stderr
  /\ Tools.run_python (Tools.ScriptExited returncode stdout stderr)
     = "Error: " ++ strip stderr.
Proof.
  intros Hrc. unfold Tools.shell, Tools.run_python.
  rewrite !bool_decide_eq_false_2 by exact Hrc. split; reflexivity.
Qed.

(** X17. A command or a script that exits with code 0 is shown to the
    model by its trimmed standard output, cut to 1000 characters, or by
    [no output] when nothing is left after trimming: [shell] and
    [run_python] are displayed alike, the second trimming in
    [execute_tool] changing nothing. *)
Theorem successful_exit_display (tp : ToolProcessor) (tc : ToolCall)
    (w w1 : World) (f : Tool) (args : Kwargs) (result stdout stderr : str)
    (timeout : Z) :
  available_functions tp !! call_name tc = Some f ->
  build_args tc = Ok args ->
  f args w = (Ok result, w1) ->
  result = Tools.shell timeout (Tools.Exited 0 stdout stderr)
  \/ result = Tools.run_python (Tools.ScriptExited 0 stdout stderr) ->
  (execute_tool tp tc w).1.1
  = Ok ("<<< " ++ take 1000 (match strip stdout with
                             | [] => "no output" : str
                             | _ :: _ => strip stdout
                             end) ++ " >>>").
Proof.
  intros Hf Hargs Hcall Hresult.
  rewrite (returned_output_display tp tc w w1 f args result Hf Hargs Hcall).
  destruct (exit_zero_results timeout stdout stderr) as [Hshell Hscript].
  assert (Hshown : match result with
                   | [] => "no output" : str
                   | _ :: _ => strip result
                   end
                   = match strip stdout with
                     | [] => "no output" : str
                     | _ :: _ => strip stdout
                     end).
  { destruct Hresult as [-> | ->]; [rewrite Hshell | rewrite Hscript].
    - destruct (strip stdout) eqn:Hs; [reflexivity |].
      rewrite <- Hs. apply strip_strip.
    - unfold or_else. destruct (strip stdout) eqn:Hs; [reflexivity |].
      rewrite <- Hs. apply strip_strip. }
  rewrite Hshown. reflexivity.
Qed.

(** X18. A command or a script that exits with another code is shown by
    [Error: ] followed by its trimmed standard error, cut to 1000
    characters; with an empty standard error the display is [Error:],
    the trimming of [execute_tool] removing the space. *)
Theorem failing_exit_display (tp : ToolProcessor) (tc : ToolCall)
    (w w1 : World) (f : Tool) (args : Kwargs) (result stdout stderr : str)
    (returncode timeout : Z) :
  available_functions tp !! call_name tc = Some f ->
  build_args tc = Ok args ->
  f args w = (Ok result, w1) ->
  returncode <> 0 ->
  result = Tools.shell timeout (Tools.Exited returncode stdout stderr)
  \/ result = Tools.run_python (Tools.ScriptExited returncode stdout stderr) ->
  (execute_tool tp tc w).1.1
  = Ok ("<<< " ++ take 1000 (match strip stderr with
                             | [] => "Error:" : str
                             | _ :: _ => "Error: " ++ strip stderr
                             end) ++ " >>>").
Proof.
  intros Hf Hargs Hcall Hrc Hresult.
  rewrite (returned_output_display tp tc w w1 f args result Hf Hargs Hcall).
  destruct (exit_nonzero_results timeout returncode stdout stderr Hrc)
    as [Hshell Hscript].
  assert (Hr : result = "Error: " ++ strip stderr)
    by (destruct Hresult as [-> | ->]; assumption).
  assert (Hshown : match result with
                   | [] => "no output" : str
                   | _ :: _ => strip result
                   end
                   = match strip stderr with
                     | [] => "Error:" : str
                     | _ :: _ => "Error: " ++ strip stderr
                     end).
  { subst result.
    destruct (strip_shape stderr)
      as [-> | (c & t & z & d & Hct & Hc & Hzd & Hd)]; [reflexivity |].
    assert (Hczd : c :: t = z ++ [d]) by congruence.
    rewrite Hct. cbn [app str_of_string].
    apply (strip_fixed (Latin "E") d ("rror: " ++ c :: t) ("Error: " ++ z));
      [reflexivity | reflexivity | | exact Hd].
    rewrite Hczd. reflexivity. }
  rewrite Hshown. reflexivity.
Qed.

End ToolDisplay.

(** ** Completion on texts of U+0000..U+00FF *)

Section LatinCompletion.
Context `{External}.
Import PyStr.

(** X19. When the content of the latest assistant entry is a text of
    U+0000..U+00FF whose lowered copy contains the sentinel, the completion
    check returns the text that follows the leftmost sentinel in the
    content itself, trimmed, or the default when nothing is left of it;
    and a pass of the loop of [run] that reaches the check in that state
    ends the run with that result. *)
Theorem latin_completion_returns_trimmed_tail (a : TaskAgent) (m : Message) :
  last (assistant_msgs (prompt_manager a)) = Some m ->
  latin_text (content m) = true ->
  contains TASK_COMPLETE_TAG (lower (content m)) = true ->
  exists before tag after : str,
    content m = before ++ tag ++ after
    /\ lower tag = TASK_COMPLETE_TAG
    /\ (forall p, occurs_at TASK_COMPLETE_TAG (lower (content m)) p ->
                  (length before <= length p)%nat)
    /\ check_completion a =
         Some (match strip after with
               | [] => TASK_COMPLETE_DEFAULT_RESULT
               | _ :: _ => strip after
               end)
    /\ forall (a0 : TaskAgent) (w w0 : World) (s : Stream)
              (budget : nat) (iteration : Z),
         generate_tokens main_runner (prompt_manager a0) w = (s, w0) ->
         failure s = None ->
         quiet_from (tool_processor a0) [] (tokens s) = true ->
         keep_plain_text a0 (concat (tokens s)) = a ->
         run_loop (S budget) iteration a0 w
         = (Ok (PyStr (match strip after with
                       | [] => TASK_COMPLETE_DEFAULT_RESULT
                       | _ :: _ => strip after
                       end)),
            iteration + 1, a, w0).
Proof.
  intros Hlast Hlatin Hin.
  destruct (find_spec TASK_COMPLETE_TAG (lower (content m)))
    as [[_ Hnone] | (pre & Hpre & _ & Hmin)].
  { apply contains_spec in Hin as [p Hp]. destruct (Hnone _ Hp). }
  destruct (lower_occurrence _ _ _ Hlatin Hpre)
    as (before & tag & after & Hsplit & Hbefore & Htag).
  assert (Hb : latin_text before = true).
  { rewrite Hsplit, latin_text_app in Hlatin.
    apply andb_true_iff in Hlatin as [Hb _]. exact Hb. }
  assert (Hleft : forall p, occurs_at TASK_COMPLETE_TAG (lower (content m)) p ->
                            (length before <= length p)%nat).
  { intros p Hp. apply Hmin in Hp.
    rewrite <- Hbefore, length_lower in Hp by exact Hb. exact Hp. }
  exists before, tag, after. split; [exact Hsplit |]. split; [exact Htag |].
  split; [exact Hleft |].
  assert (Hcheck : check_completion a =
                     Some (or_else (strip after) TASK_COMPLETE_DEFAULT_RESULT))
    by (apply (check_completion_at a m before tag after); assumption).
  split; [exact Hcheck |].
  intros a0 w w0 s budget iteration Hgen Hfail Hquiet Hkeep.
  cbn [run_loop].
  rewrite (process_iteration_plain a0 _ w w0 s) by assumption.
  rewrite Hkeep, Hcheck. reflexivity.
Qed.

(** X20. On a text of U+0000..U+00FF with a second sentinel further to
    the right, the result is still cut after the leftmost one: the text
    between the two, the second sentinel as it was written and what
    follows it, trimmed at both ends only. *)
Theorem latin_completion_keeps_later_sentinels (a : TaskAgent) (m : Message)
    (before tag1 between tag2 rest : str) :
  last (assistant_msgs (prompt_manager a)) = Some m ->
  latin_text (content m) = true ->
  content m = before ++ tag1 ++ between ++ tag2 ++ rest ->
  lower tag1 = TASK_COMPLETE_TAG ->
  lower tag2 = TASK_COMPLETE_TAG ->
  (forall p, occurs_at TASK_COMPLETE_TAG (lower (content m)) p ->
             (length before <= length p)%nat) ->
  check_completion a = Some (lstrip between ++ tag2 ++ rstrip rest).
Proof.
  intros Hlast Hlatin Hsplit Htag1 Htag2 Hleft.
  rewrite (check_completion_at a m before tag1 (between ++ tag2 ++ rest))
    by assumption.
  assert (Ht2 : latin_text tag2 = true).
  { rewrite Hsplit, !latin_text_app in Hlatin.
    repeat (apply andb_true_iff in Hlatin as [? Hlatin]). assumption. }
  destruct (sentinel_shape tag2 Ht2 Htag2) as (_ & c & t & d & -> & Hc & Hd).
  rewrite strip_around by assumption.
  destruct (lstrip between); reflexivity.
Qed.

End LatinCompletion.

(** ** The further properties on scripted inputs *)

Section FurtherScenarios.
Import PyStr Scenario Inputs.
#[local] Existing Instance scripted.

Lemma scan_returns_markers_witness :
  exists before raw after : str,
    ("okay [shell]|||echo hi||| done" : str)
    = before ++ "[" ++ "shell" ++ "]|||" ++ raw ++ "|||" ++ after
    /\ length before = 5%nat.
Proof.
  assert (Hin : echo_hi_call
                ∈ find_unexecuted_tool_calls (tool_processor (agent 10))
                    "okay [shell]|||echo hi||| done").
  { assert (Hscan : find_unexecuted_tool_calls (tool_processor (agent 10))
                      "okay [shell]|||echo hi||| done" = [echo_hi_call])
      by (vm_compute; reflexivity).
    rewrite Hscan. left. }
  destruct (scan_returns_markers _ _ _ Hin)
    as (before & raw & after & Htext & Hlen & _).
  exists before, raw, after. split; [exact Htext | exact Hlen].
Defined.

Lemma scan_finds_first_marker_witness :
  exists others,
    find_unexecuted_tool_calls (tool_processor (agent 10))
      ("okay " ++ "[" ++ "shell" ++ "]|||" ++ "echo hi" ++ "|||" ++ " done")
    = echo_hi_call :: others.
Proof.
  apply (scan_finds_first_marker (tool_processor (agent 10))
           "okay " "shell" "echo hi" " done").
  - repeat (constructor; [discriminate |]). constructor.
  - discriminate.
  - repeat (constructor; [reflexivity |]). constructor.
  - repeat (constructor; [discriminate |]). constructor.
  - reflexivity.
Defined.

Lemma scan_ignores_unclosed_marker_witness :
  find_unexecuted_tool_calls (tool_processor (agent 10))
    ("okay " ++ "[" ++ "shell" ++ "]|||" ++ "echo hi") = [].
Proof.
  apply (scan_ignores_unclosed_marker (tool_processor (agent 10))
           "okay " "shell" "echo hi").
  - repeat (constructor; [discriminate |]). constructor.
  - repeat (constructor; [reflexivity |]). constructor.
  - repeat (constructor; [split; discriminate |]). constructor.
Defined.

Lemma rescan_returns_remaining_witness :
  find_unexecuted_tool_calls
    (process_text (tool_processor (agent 10))
       "[shell]|||echo a||| and [shell]|||echo b|||" quiet_world).1.2
    "[shell]|||echo a||| and [shell]|||echo b|||"
  = [ call_of_match {| Re.m_start := 24; Re.m_end := 43;
                       Re.group1 := "shell"; Re.group2 := "echo b" |} ].
Proof.
  apply (rescan_returns_remaining (tool_processor (agent 10))
           "[shell]|||echo a||| and [shell]|||echo b|||" quiet_world
           (call_of_match {| Re.m_start := 0; Re.m_end := 19;
                             Re.group1 := "shell"; Re.group2 := "echo a" |})).
  vm_compute. reflexivity.
Defined.

Lemma executed_table_invariant_witness :
  processor_reachable
    (process_text (new_tool_processor AVAILABLE_TOOLS)
       "[shell]|||echo hi|||" quiet_world).1.2
  /\ (length (calls_logged
                (process_text (new_tool_processor AVAILABLE_TOOLS)
                   "[shell]|||echo hi|||" quiet_world).1.2)
      <= size (executed_tools
                 (process_text (new_tool_processor AVAILABLE_TOOLS)
                    "[shell]|||echo hi|||" quiet_world).1.2))%nat.
Proof.
  assert (Hreach :
    processor_reachable
      (process_text (new_tool_processor AVAILABLE_TOOLS)
         "[shell]|||echo hi|||" quiet_world).1.2)
    by (apply reach_process_text, reach_new_tool_processor).
  split; [exact Hreach |].
  destruct (executed_table_invariant _ Hreach) as [_ Hlog]. exact Hlog.
Defined.

Lemma context_tail_is_suffix_witness :
  0 < 5
  /\ exists head : str,
       ("hello world" : str)
       = head ++ get_context_tail 5 [fresh_assistant "hello world"]
       /\ length (get_context_tail 5 [fresh_assistant "hello world"]) = 5%nat.
Proof.
  split; [lia |].
  exact (context_tail_is_suffix 5 [fresh_assistant "hello world"] ltac:(lia)).
Defined.

Lemma reachable_starts_with_system_witness :
  reachable (process_iteration (agent 10) 1 single_shell_call).1.2
  /\ exists text,
       prompt_manager (process_iteration (agent 10) 1 single_shell_call).1.2
         !! 0%nat
       = Some {| role := system; content := text;
                 completed := None; origin := by_init |}.
Proof.
  assert (Hreach :
    reachable (process_iteration (agent 10) 1 single_shell_call).1.2).
  { apply reach_process_iteration. unfold agent.
    apply reach_add_user_message. apply reach_new. }
  split; [exact Hreach | exact (reachable_starts_with_system _ Hreach)].
Defined.

Lemma completion_without_sentinel_witness :
  check_completion (keep_plain_text (agent 0) "0123456789abcd result ")
  = Some ("result" : str).
Proof.
  refine (eq_trans
            (completion_without_sentinel
               (keep_plain_text (agent 0) "0123456789abcd result ")
               (fresh_assistant "0123456789abcd result ") _ _ _) _).
  - cbn. lia.
  - vm_compute. reflexivity.
  - vm_compute. reflexivity.
  - vm_compute. reflexivity.
Defined.

Lemma tool_pass_ends_run_witness :
  exists a' w',
    run_loop 10 0 (agent 10) single_shell_call = (Ok PyFalse, 0 + 1, a', w').
Proof.
  destruct (tool_pass_ends_run (agent 10) single_shell_call
              {| main_script := []; critic_script := [says "go on"] |}
              (says "okay [shell]|||echo hi||| done")
              [] [] "okay [shell]|||echo hi||| done" echo_hi_call [] 9 0)
    as (a' & w' & _ & Hrun).
  - reflexivity.
  - reflexivity.
  - reflexivity.
  - vm_compute. reflexivity.
  - intros msgs. vm_compute. reflexivity.
  - exists a', w'. exact Hrun.
Defined.

Lemma failed_stream_is_dropped_witness :
  (run_loop 10 0 (agent 10) failing_world).1.1
  = (Ok (PyStr "try again"), 0 + 1).
Proof.
  rewrite (failed_stream_is_dropped (agent 10) failing_world
             {| main_script := []; critic_script := [says "try again"] |}
             quiet_world broken_stream "reset" "try again" 9 0).
  - reflexivity.
  - reflexivity.
  - reflexivity.
  - vm_compute. reflexivity.
  - vm_compute. reflexivity.
Defined.

Lemma successful_exit_display_witness :
  (execute_tool
     (new_tool_processor
        {[ ("shell" : str) :=
             answering (Tools.shell 10 (Tools.Exited 0 " hi  " "")) ]})
     (call "shell" "echo hi") quiet_world).1.1
  = Ok ("<<< hi >>>" : str).
Proof.
  refine (eq_trans
            (successful_exit_display
               (new_tool_processor
                  {[ ("shell" : str) :=
                       answering (Tools.shell 10 (Tools.Exited 0 " hi  " "")) ]})
               (call "shell" "echo hi") quiet_world quiet_world
               (answering (Tools.shell 10 (Tools.Exited 0 " hi  " "")))
               (Keyword "command" "echo hi")
               (Tools.shell 10 (Tools.Exited 0 " hi  " ""))
               " hi  " "" 10 _ _ _ _) _).
  - vm_compute. reflexivity.
  - vm_compute. reflexivity.
  - reflexivity.
  - left. reflexivity.
  - vm_compute. reflexivity.
Defined.

Lemma failing_exit_display_witness :
  (execute_tool
     (new_tool_processor
        {[ ("shell" : str) :=
             answering (Tools.shell 10 (Tools.Exited 1 "" "")) ]})
     (call "shell" "exit 1") quiet_world).1.1
  = Ok ("<<< Error: >>>" : str).
Proof.
  refine (eq_trans
            (failing_exit_display
               (new_tool_processor
                  {[ ("shell" : str) :=
                       answering (Tools.shell 10 (Tools.Exited 1 "" "")) ]})
               (call "shell" "exit 1") quiet_world quiet_world
               (answering (Tools.shell 10 (Tools.Exited 1 "" "")))
               (Keyword "command" "exit 1")
               (Tools.shell 10 (Tools.Exited 1 "" ""))
               "" "" 1 10 _ _ _ _ _) _).
  - vm_compute. reflexivity.
  - vm_compute. reflexivity.
  - reflexivity.
  - lia.
  - left. reflexivity.
  - vm_compute. reflexivity.
Defined.

Lemma latin_completion_returns_trimmed_tail_witness :
  exists before tag after : str,
    ("all done [task_complete] 42" : str) = before ++ tag ++ after
    /\ lower tag = TASK_COMPLETE_TAG
    /\ check_completion
         (keep_plain_text (agent 10) "all done [task_complete] 42")
       = Some (match strip after with
               | [] => TASK_COMPLETE_DEFAULT_RESULT
               | _ :: _ => strip after
               end).
Proof.
  destruct (latin_completion_returns_trimmed_tail
              (keep_plain_text (agent 10) "all done [task_complete] 42")
              (fresh_assistant "all done [task_complete] 42")
              ltac:(vm_compute; reflexivity) ltac:(vm_compute; reflexivity)
              ltac:(vm_compute; reflexivity))
    as (before & tag & after & Hsplit & Htag & _ & Hcheck & _).
  exists before, tag, after. split; [exact Hsplit |]. split; assumption.
Defined.

Lemma latin_completion_keeps_later_sentinels_witness :
  check_completion
    (keep_plain_text (agent 10)
       "done [task_complete] first [TASK_COMPLETE] second ")
  = Some ("first [TASK_COMPLETE] second" : str).
Proof.
  refine (eq_trans
            (latin_completion_keeps_later_sentinels
               (keep_plain_text (agent 10)
                  "done [task_complete] first [TASK_COMPLETE] second ")
               (fresh_assistant
                  "done [task_complete] first [TASK_COMPLETE] second ")
               "done " "[task_complete]" " first " "[TASK_COMPLETE]"
               " second " _ _ _ _ _ _) _);
    try (vm_compute; reflexivity).
  intros p Hp. apply find_le_occurrence in Hp.
  assert (Hfind :
    find TASK_COMPLETE_TAG
      (lower (content (fresh_assistant
                "done [task_complete] first [TASK_COMPLETE] second ")))
    = 5) by (vm_compute; reflexivity).
  rewrite Hfind in Hp. unfold len in Hp.
  change (length ("done " : str)) with 5%nat. lia.
Defined.

Lemma cap_notice_closes_run_witness :
  exists (init : list Message) (m : Message) (earlier : str),
    run (agent 2)
      {| main_script := [says "thinking"; says " harder"];
         critic_script := [] |}
    = (Ok (PyStr (content m)), 2,
       with_prompt_manager
         (keep_plain_text (keep_plain_text (agent 2) "thinking") " harder")
         (init ++ [m]),
       quiet_world)
    /\ role m = assistant /\ completed m = Some true
    /\ content m = earlier ++ MAX_ITERATIONS_MESSAGE.
Proof.
  destruct (cap_notice_closes_run (agent 2)
              (keep_plain_text (keep_plain_text (agent 2) "thinking")
                 " harder")
              {| main_script := [says "thinking"; says " harder"];
                 critic_script := [] |}
              quiet_world)
    as (init & m & earlier & Hrun & _ & Hm & Hc & Hcontent).
  - vm_compute. discriminate.
  - eexists. reflexivity.
  - intros i m Hcur. vm_compute in Hcur. discriminate.
  - vm_compute. reflexivity.
  - exists init, m, earlier. auto.
Defined.

End FurtherScenarios.
